(** * Import-graph builder of [script.py]: a shallow embedding and its properties

    The development follows [script.py] function by function:
    [parse_imports], [mark_dead_code], [build_import_graph], the click
    handler embedded by [create_interactive_graph], the loops of
    [create_interactive_graph] and [main].

    - The Python AST is an inductive type [node]; [ast_walk] is the
      breadth-first generator [ast.walk].
    - A [networkx.DiGraph] is a record of a finite map from node identity to
      its attribute record and a finite set of directed edges.
    - Python dictionaries that the code iterates over ([imports],
      [file_nodes]) are insertion-ordered association lists; dictionaries
      that are only indexed or merged are [gmap]s.
    - Exceptions are the [Raise] case of [result].
    - The file system, [ast.parse] and [ast.unparse] are the fields of
      [Env]; the layout, plotly and the output file are the fields of
      [Libs]. *)

From stdpp Require Import base strings list gmap sets.
From Stdlib Require Import Ascii.

Local Open Scope stdpp_scope.

(** ** Exceptions *)

Inductive exn : Type :=
| SyntaxError   (* raised by [ast.parse] on malformed source *)
| OSError       (* raised by [open] on a file that cannot be opened *)
| KeyError      (* raised by a lookup [d[k]] of an absent key *)
| ValueError.   (* raised by plotly on a value it does not accept *)

Inductive result (A : Type) : Type :=
| Ok (a : A)
| Raise (e : exn).

Arguments Ok {A} a.
Arguments Raise {A} e.

Definition bind {A B : Type} (r : result A) (k : A → result B) : result B :=
  match r with
  | Ok a => k a
  | Raise e => Raise e
  end.

(** ** Strings: the few operations of [str] and [os.path] the script uses *)

(** [s.endswith(suffix)] *)
Fixpoint endswith (suffix s : string) : bool :=
  if bool_decide (s = suffix) then true
  else match s with
       | EmptyString => false
       | String _ s' => endswith suffix s'
       end.

(** [c in s] for a one-character [c] *)
Fixpoint occurs (c : ascii) (s : string) : bool :=
  match s with
  | EmptyString => false
  | String c' s' => if bool_decide (c' = c) then true else occurs c s'
  end.

(** [posixpath.join(a, b)] for two components *)
Definition os_path_join (a b : string) : string :=
  match b with
  | String "/" _ => b
  | _ => if bool_decide (a = "") || endswith "/" a then a +:+ b
         else a +:+ "/" +:+ b
  end.

(** ** The abstract syntax tree

    Only the node classes the script tests with [isinstance] carry their own
    constructor.  Every other class of node (compound statements, exception
    handlers, expressions, ...) is [Other] with its child nodes in field
    order.  Children that can hold no statement (decorators, base classes,
    arguments, [alias] nodes) are left out: they match none of the
    [isinstance] tests and do not change the relative order in which
    [ast.walk] yields the remaining nodes. *)

Record alias : Type := Alias {
  alias_name : string;           (* [alias.name] *)
  asname : option string         (* [alias.asname], never read by the script *)
}.

#[warnings="-register-all"]
Inductive node : Type :=
| Module_ (body : list node)                          (* [ast.Module] *)
| FunctionDef (name : string) (args : string) (body : list node)
| AsyncFunctionDef (name : string) (args : string) (body : list node)
| ClassDef (name : string) (bases : string) (body : list node)
| Import (names : list alias)
| ImportFrom (module : option string) (names : list alias) (level : nat)
| Other (fields : string) (children : list node).

(** [ast.iter_child_nodes] *)
Definition iter_child_nodes (n : node) : list node :=
  match n with
  | Module_ body => body
  | FunctionDef _ _ body => body
  | AsyncFunctionDef _ _ body => body
  | ClassDef _ _ body => body
  | Import _ => []
  | ImportFrom _ _ _ => []
  | Other _ children => children
  end.

Fixpoint node_size (n : node) : nat :=
  let sizes := fix sizes (l : list node) : nat :=
    match l with
    | [] => 0
    | x :: l' => node_size x + sizes l'
    end in
  match n with
  | Module_ body => S (sizes body)
  | FunctionDef _ _ body => S (sizes body)
  | AsyncFunctionDef _ _ body => S (sizes body)
  | ClassDef _ _ body => S (sizes body)
  | Import _ => 1
  | ImportFrom _ _ _ => 1
  | Other _ children => S (sizes children)
  end.

Definition total_size (l : list node) : nat := sum_list_with node_size l.

(** [ast.walk]:
<<
    todo = deque([node])
    while todo:
        node = todo.popleft()
        todo.extend(iter_child_nodes(node))
        yield node
>>
    The loop runs once per node of the tree, so [node_size tree] iterations
    are enough (lemma [walk_loop_length] below: the fuel never runs out). *)
Fixpoint walk_loop (fuel : nat) (todo : list node) : list node :=
  match fuel, todo with
  | S fuel', n :: todo' => n :: walk_loop fuel' (todo' ++ iter_child_nodes n)
  | _, _ => []
  end.

Definition ast_walk (tree : node) : list node :=
  walk_loop (node_size tree) [tree].

(** ** Insertion-ordered dictionaries *)

Definition dict (V : Type) : Type := list (string * V).

(** [d[k] = v]: an existing key keeps its position *)
Fixpoint dict_set {V : Type} (k : string) (v : V) (d : dict V) : dict V :=
  match d with
  | [] => [(k, v)]
  | (k', v') :: d' =>
      if bool_decide (k' = k) then (k', v) :: d' else (k', v') :: dict_set k v d'
  end.

Definition keys {V : Type} (d : dict V) : list string := fst <$> d.
Definition values {V : Type} (d : dict V) : list V := snd <$> d.

(** ** The file system and the [ast] library as the script sees them *)

(** One triple [(root, _, files)] yielded by [os.walk]. *)
Record walk_entry : Type := WalkEntry {
  root : string;
  files : list string
}.

Inductive directory : Type :=
| NoSuchDirectory
| NotReadable
| Listing (entries : list walk_entry).

Record Env : Type := {
  (** what lies at a path given as the root of a walk *)
  dir_at : string → directory;
  (** [ast.parse(open(path).read())]: the tree, [SyntaxError] for malformed
      source, [OSError] when the file cannot be opened *)
  parse_file : string → result node;
  (** [ast.unparse] *)
  ast_unparse : node → string
}.

(** [os.walk(top)] with its default [onerror=None]: a directory that cannot
    be listed yields nothing. *)
Definition os_walk (fs : Env) (top : string) : list walk_entry :=
  match dir_at fs top with
  | Listing entries => entries
  | NoSuchDirectory | NotReadable => []
  end.

(** ** [parse_imports] *)

Definition parse_imports_node (imports : dict (gset string)) (n : node)
  : dict (gset string) :=
  match n with
  | Import names =>
      fold_left (λ imports a, dict_set (alias_name a) {[ alias_name a ]} imports)
                names imports
  | ImportFrom module names _ =>
      let module := default "" module in
      fold_left (λ imports a,
                   let full_name :=
                     if bool_decide (module = "") then alias_name a
                     else module +:+ "." +:+ alias_name a in
                   dict_set full_name {[ alias_name a ]} imports)
                names imports
  | _ => imports
  end.

Definition parse_imports (fs : Env) (file_path : string)
  : result (dict (gset string)) :=
  bind (parse_file fs file_path) (λ tree,
    Ok (fold_left parse_imports_node (ast_walk tree) [])).

(** ** A [networkx.DiGraph]

    [add_node(n, color=c, type=t)] creates the attribute dictionary of [n] or
    updates it with both keys, so the attributes afterwards are [c] and [t]
    whatever they were.  [add_edge(u, v)] first creates [u] and [v] with an
    empty attribute dictionary when they are not nodes yet. *)

Record node_attrs : Type := Attrs {
  color : option string;
  type : option string
}.

Global Instance node_attrs_eq_dec : EqDecision node_attrs.
Proof. solve_decision. Defined.

Record DiGraph : Type := Graph {
  nodes : gmap string node_attrs;
  edges : gset (string * string)
}.

Definition empty_graph : DiGraph := Graph ∅ ∅.

Definition add_node (n c t : string) (G : DiGraph) : DiGraph :=
  Graph (<[n := Attrs (Some c) (Some t)]> (nodes G)) (edges G).

Definition ensure_node (n : string) (m : gmap string node_attrs)
  : gmap string node_attrs :=
  match m !! n with
  | Some _ => m
  | None => <[n := Attrs None None]> m
  end.

Definition add_edge (u v : string) (G : DiGraph) : DiGraph :=
  Graph (ensure_node v (ensure_node u (nodes G))) ({[ (u, v) ]} ∪ edges G).

(** [G.out_degree(n)]: the number of edges that leave the node [n].  For an
    [n] that is no node networkx answers with a view of degrees, which is no
    number: [None]. *)
Definition out_degree (G : DiGraph) (n : string) : option nat :=
  match nodes G !! n with
  | Some _ => Some (length (filter (λ e, e.1 = n) (elements (edges G))))
  | None => None
  end.

(** ** [mark_dead_code] *)

(** The body of the loop.  A degree that is no number is not [== 0];
    [None] is the [KeyError] of [G.nodes[file_node]]. *)
Definition mark_file (acc : option DiGraph) (file_node : string)
  : option DiGraph :=
  G ← acc;
  if bool_decide (out_degree G file_node = Some 0) then
    a ← nodes G !! file_node;
    Some (Graph (<[file_node := Attrs (Some "red") (type a)]> (nodes G))
                (edges G))
  else Some G.

Definition mark_dead_code (G : DiGraph) (file_nodes : dict string)
  : option DiGraph :=
  foldl mark_file (Some G) (values file_nodes).

(** ** [build_import_graph] *)

Definition get_function_code (env : Env) (n : node) : string := ast_unparse env n.
Definition get_class_code (env : Env) (n : node) : string := ast_unparse env n.

(** The four local variables of [build_import_graph]. *)
Record builder : Type := Builder {
  G : DiGraph;
  file_nodes : dict string;
  function_codes : gmap string string;
  class_codes : gmap string string
}.

Definition initial : builder := Builder empty_graph [] ∅ ∅.

(** The statements of the loop bodies, each as a step on [builder]. *)
Inductive op : Type :=
| AddNode (n c t : string)            (* [G.add_node(n, color=c, type=t)] *)
| AddEdge (u v : string)              (* [G.add_edge(u, v)] *)
| SetFileNode (k v : string)          (* [file_nodes[k] = v] *)
| SetFunctionCode (k code : string)   (* [function_codes[k] = code] *)
| SetClassCode (k code : string).     (* [class_codes[k] = code] *)

Definition step (st : builder) (o : op) : builder :=
  match o with
  | AddNode n c t =>
      Builder (add_node n c t (G st)) (file_nodes st) (function_codes st) (class_codes st)
  | AddEdge u v =>
      Builder (add_edge u v (G st)) (file_nodes st) (function_codes st) (class_codes st)
  | SetFileNode k v =>
      Builder (G st) (dict_set k v (file_nodes st)) (function_codes st) (class_codes st)
  | SetFunctionCode k code =>
      Builder (G st) (file_nodes st) (<[k := code]> (function_codes st)) (class_codes st)
  | SetClassCode k code =>
      Builder (G st) (file_nodes st) (function_codes st) (<[k := code]> (class_codes st))
  end.

Definition steps (st : builder) (l : list op) : builder := foldl step st l.

(** Lines 78-83: one [item] of a class body. *)
Definition visit_item (env : Env) (class_name : string) (item : node) : list op :=
  match item with
  | FunctionDef name _ _ =>
      let method_name := class_name +:+ "::" +:+ name in
      [ AddNode method_name "green" "function";
        AddEdge class_name method_name;
        SetFunctionCode method_name (get_function_code env item) ]
  | _ => []
  end.

(** Lines 68-83: the body of [for node in ast.walk(tree)]. *)
Definition visit (env : Env) (file_node : string) (n : node) : list op :=
  match n with
  | FunctionDef name _ _ =>
      let func_name := file_node +:+ "::" +:+ name in
      [ AddNode func_name "green" "function";
        AddEdge file_node func_name;
        SetFunctionCode func_name (get_function_code env n) ]
  | ClassDef name _ body =>
      let class_name := file_node +:+ "::" +:+ name in
      [ AddNode class_name "red" "class";
        AddEdge file_node class_name;
        SetClassCode class_name (get_class_code env n) ]
      ++ (body ≫= visit_item env class_name)
  | _ => []
  end.

(** Lines 86-88: the body of [for imported_module, symbols in imports.items()]. *)
Definition visit_import (file_node : string) (item : string * gset string)
  : list op :=
  let '(imported_module, symbols) := item in
  [ AddNode imported_module "yellow" "module";
    AddEdge file_node imported_module ].

(** Lines 59-88: the body of [if file.endswith('.py')]. *)
Definition process_file (env : Env) (file_path : string) (st : builder)
  : result builder :=
  let file_node := file_path in
  let st := steps st [ AddNode file_node "blue" "file";
                       SetFileNode file_path file_node ] in
  bind (parse_file env file_path) (λ tree,
    let st := steps st (ast_walk tree ≫= visit env file_node) in
    bind (parse_imports env file_path) (λ imports,
      Ok (steps st (imports ≫= visit_import file_node)))).

(** Lines 57-58: [for file in files: if file.endswith('.py'): ...] *)
Fixpoint for_files (env : Env) (root : string) (files : list string)
    (st : builder) : result builder :=
  match files with
  | [] => Ok st
  | file :: rest =>
      if endswith ".py" file then
        bind (process_file env (os_path_join root file) st)
             (for_files env root rest)
      else for_files env root rest st
  end.

(** Line 56: [for root, _, files in os.walk(directory)] *)
Fixpoint for_walk (env : Env) (entries : list walk_entry) (st : builder)
  : result builder :=
  match entries with
  | [] => Ok st
  | e :: rest =>
      bind (for_files env (root e) (files e) st) (for_walk env rest)
  end.

Definition build_import_graph (env : Env) (directory : string)
  : result (DiGraph * dict string * gmap string string) :=
  bind (for_walk env (os_walk env directory) initial) (λ st,
    (* [{**function_codes, **class_codes}]: the class entry wins *)
    Ok (G st, file_nodes st, class_codes st ∪ function_codes st)).

(** ** The click handler embedded by [create_interactive_graph]

    Lines 187-206, after [nodeName] and [nodeType] have been read off the
    clicked point.  [functionCodes] is the JSON object made from the
    snippet dictionary; JavaScript's [if (code)] is false for a missing key
    and for the empty string. *)

Inductive preview : Type :=
| ShowText (content : string)       (* [previewContent.textContent = content] *)
| FetchFile (path : string).        (* [fetch('/get_file_content?path=' + ...)] *)

Definition plotly_click (functionCodes : gmap string string)
    (nodeName nodeType : string) : preview :=
  if bool_decide (nodeType = "function") || bool_decide (nodeType = "class") then
    match functionCodes !! nodeName with
    | Some code =>
        if bool_decide (code = "") then ShowText "Code not available"
        else ShowText code
    | None => ShowText "Code not available"
    end
  else if bool_decide (nodeType = "file") then FetchFile nodeName
  else ShowText ("No preview available for " +:+ nodeType +:+ ": " +:+ nodeName).

(** Lines 180-183 read [nodeName] and [nodeType] off the text of the
    clicked point, which line 124 made of the node's identity and type. *)





(** ** [create_interactive_graph] and [main]

    [nx.spring_layout], the plotly calls and the output file are outside the
    script; each of them can raise.  [R] is the type of a coordinate. *)

(** The data of the two traces when the loops of lines 111-124 are over. *)
Record figure (R : Type) : Type := Figure {
  edge_x : list (option R);       (* [edge_trace['x']] *)
  edge_y : list (option R);       (* [edge_trace['y']] *)
  node_x : list R;                (* [node_trace['x']] *)
  node_y : list R;                (* [node_trace['y']] *)
  node_colors : list string;      (* [node_trace.marker.color] *)
  node_text : list string         (* [node_trace.text] *)
}.

Arguments Figure {R} _ _ _ _ _ _.
Arguments edge_x {R} _.
Arguments edge_y {R} _.
Arguments node_x {R} _.
Arguments node_y {R} _.
Arguments node_colors {R} _.
Arguments node_text {R} _.

(** What is written to the output file. *)
Record page (R : Type) : Type := Page {
  fig : figure R;
  graphData : string;                     (* [fig.to_json()] *)
  functionCodes : gmap string string      (* [json.dumps(function_codes)] *)
}.

Arguments Page {R} _ _ _.
Arguments fig {R} _.
Arguments graphData {R} _.
Arguments functionCodes {R} _.

Record Libs (R : Type) : Type := {
  (** [nx.spring_layout(G, k=0.5, iterations=50)], line 93 *)
  spring_layout : DiGraph → result (gmap string (R * R));
  (** the two [go.Scatter(...)] of lines 95-109: [Some e] when plotly raises *)
  go_Scatter : option exn;
  (** [go.Figure(...)] and [fig.update_layout(...)], lines 126-156, with
      plotly's validation of the values assigned to the traces *)
  go_Figure : figure R → option exn;
  (** [open(output_file, 'w')], line 213 *)
  open_w : string → option exn;
  (** [fig.to_json()], line 263 *)
  to_json : figure R → result string;
  (** [f.write(...)], line 214 *)
  f_write : string → page R → option exn
}.

Arguments spring_layout {R} _ _.
Arguments go_Scatter {R} _.
Arguments go_Figure {R} _ _.
Arguments open_w {R} _ _.
Arguments to_json {R} _ _.
Arguments f_write {R} _ _ _.

(** [d[k]] *)
Definition getitem {A : Type} (o : option A) : result A :=
  match o with
  | Some a => Ok a
  | None => Raise KeyError
  end.

(** A call made for its effect only. *)
Definition call (o : option exn) : result unit :=
  match o with
  | Some e => Raise e
  | None => Ok ()
  end.

(** [G.nodes()] and [G.edges()], in no particular order. *)
Definition node_list (G : DiGraph) : list string := (map_to_list (nodes G)).*1.
Definition edge_list (G : DiGraph) : list (string * string) := elements (edges G).

(** Lines 112-115: the body of [for edge in G.edges()]. *)
Definition edge_step {R : Type} (pos : gmap string (R * R))
    (acc : result (list (option R) * list (option R))) (edge : string * string)
  : result (list (option R) * list (option R)) :=
  bind acc (λ '(xs, ys),
    bind (getitem (pos !! edge.1)) (λ '(x0, y0),
      bind (getitem (pos !! edge.2)) (λ '(x1, y1),
        Ok (xs ++ [Some x0; Some x1; None], ys ++ [Some y0; Some y1; None])))).

(** Line 124: [f"{node}<br>Type: {G.nodes[node]['type']}"] *)
Definition hover_text (node type : string) : string :=
  node +:+ "<br>Type: " +:+ type.

(** Lines 120-124: the body of [for node in G.nodes()]. *)
Definition node_step {R : Type} (pos : gmap string (R * R)) (G : DiGraph)
    (acc : result (list R * list R * list string * list string)) (node : string)
  : result (list R * list R * list string * list string) :=
  bind acc (λ '(xs, ys, colors, text),
    bind (getitem (pos !! node)) (λ '(x, y),
      bind (getitem (nodes G !! node)) (λ attrs,
        bind (getitem (color attrs)) (λ c,
          bind (getitem (type attrs)) (λ t,
            Ok (xs ++ [x], ys ++ [y], colors ++ [c],
                text ++ [hover_text node t])))))).

Definition create_interactive_graph {R : Type} (libs : Libs R) (G : DiGraph)
    (function_codes : gmap string string) (output_file : string)
  : result (page R) :=
  bind (spring_layout libs G) (λ pos,
    bind (call (go_Scatter libs)) (λ _,
      bind (foldl (edge_step pos) (Ok ([], [])) (edge_list G)) (λ '(ex, ey),
        bind (foldl (node_step pos G) (Ok ([], [], [], [])) (node_list G))
             (λ '(nx, ny, colors, text),
          let fig := Figure ex ey nx ny colors text in
          bind (call (go_Figure libs fig)) (λ _,
            bind (call (open_w libs output_file)) (λ _,
              bind (to_json libs fig) (λ graphData,
                let html := Page fig graphData function_codes in
                bind (call (f_write libs output_file html)) (λ _,
                  Ok html)))))))).

(** What a run leaves behind: the file it wrote and the lines it printed. *)
Record outcome (R : Type) : Type := Outcome {
  written_to : string;
  html : page R;
  stdout : list string
}.

Arguments Outcome {R} _ _ _.
Arguments written_to {R} _.
Arguments html {R} _.
Arguments stdout {R} _.

Definition main {R : Type} (env : Env) (libs : Libs R)
    (directory output_file : string) : result (outcome R) :=
  bind (build_import_graph env directory) (λ '(G, file_nodes, function_codes),
    bind (create_interactive_graph libs G function_codes output_file) (λ html,
      Ok (Outcome output_file html
                  [ "Interactive import graph saved to " +:+ output_file ]))).

(** ** Sample inputs *)

Module Samples.

Definition unparse (n : node) : string :=
  match n with
  | FunctionDef name args _ => "def " +:+ name +:+ "(" +:+ args +:+ "): ..."
  | ClassDef name bases _ => "class " +:+ name +:+ bases +:+ ": ..."
  | _ => "..."
  end.

(** [a.py]: [def foo(): pass] and [import os]; [b.py]: [from a import foo]. *)
Definition a_py : node :=
  Module_ [ FunctionDef "foo" "" [Other "pass" []]; Import [Alias "os" None] ].
Definition b_py : node :=
  Module_ [ ImportFrom (Some "a") [Alias "foo" None] 0 ].

Definition scenario : Env := {|
  dir_at d := if bool_decide (d = "proj")
              then Listing [WalkEntry "proj" ["a.py"; "b.py"; "README.md"]]
              else NoSuchDirectory;
  parse_file p := if bool_decide (p = "proj/a.py") then Ok a_py
                  else if bool_decide (p = "proj/b.py") then Ok b_py
                  else Raise OSError;
  ast_unparse := unparse
|}.

(** [shapes.py]: a class with a method, and a function nested in a function. *)
Definition shapes_py : node :=
  Module_ [ ClassDef "C" "" [ FunctionDef "m" "self" [Other "pass" []] ];
            FunctionDef "outer" "" [ FunctionDef "inner" "" [Other "pass" []] ] ].

Definition nested : Env := {|
  dir_at d := if bool_decide (d = "proj")
              then Listing [WalkEntry "proj" ["shapes.py"]]
              else NoSuchDirectory;
  parse_file p := if bool_decide (p = "proj/shapes.py") then Ok shapes_py
                  else Raise OSError;
  ast_unparse := unparse
|}.


(** [x.py]: [import os]; [y.py]: [import os] twice and [from os import path]. *)
Definition x_py : node := Module_ [ Import [Alias "os" None] ].
Definition y_py : node :=
  Module_ [ Import [Alias "os" None];
            ImportFrom (Some "os") [Alias "path" None] 0;
            Import [Alias "os" (Some "system")] ].

(** [late.py]: [import os] at the top; inside a function,
    [from os import path as p] and the relative [from . import util]. *)
Definition late_py : node :=
  Module_ [ Import [Alias "os" None];
            FunctionDef "load" ""
              [ ImportFrom (Some "os") [Alias "path" (Some "p")] 0;
                ImportFrom None [Alias "util" None] 1 ] ].

Definition late : Env := {|
  dir_at d := if bool_decide (d = "proj")
              then Listing [WalkEntry "proj" ["late.py"]]
              else NoSuchDirectory;
  parse_file p := if bool_decide (p = "proj/late.py") then Ok late_py
                  else Raise OSError;
  ast_unparse := unparse
|}.



(** [empty.py] holds no statement at all. *)
Definition empty_py : node := Module_ [].

Definition shared : Env := {|
  dir_at d := if bool_decide (d = "proj")
              then Listing [ WalkEntry "proj" ["x.py"; "notes.txt"];
                             WalkEntry "proj/sub" ["y.py"; "empty.py"] ]
              else NoSuchDirectory;
  parse_file p := if bool_decide (p = "proj/x.py") then Ok x_py
                  else if bool_decide (p = "proj/sub/y.py") then Ok y_py
                  else if bool_decide (p = "proj/sub/empty.py") then Ok empty_py
                  else Raise OSError;
  ast_unparse := unparse
|}.

(** The same files as [shared], listed by the walk in another order. *)
Definition shared_reordered : Env := {|
  dir_at d := if bool_decide (d = "proj")
              then Listing [ WalkEntry "proj/sub" ["empty.py"; "y.py"];
                             WalkEntry "proj" ["notes.txt"; "x.py"] ]
              else NoSuchDirectory;
  parse_file := parse_file shared;
  ast_unparse := unparse
|}.

(** Libraries that do their work, and an output directory that is missing. *)
Definition libs : Libs Z := {|
  spring_layout G := Ok ((λ _, (0%Z, 0%Z)) <$> nodes G);
  go_Scatter := None;
  go_Figure _ := None;
  open_w path := if bool_decide (path = "/no/such/dir/out.html")
                 then Some OSError else None;
  to_json _ := Ok "{}";
  f_write _ _ := None
|}.

End Samples.

(** * Properties *)

(** ** Strings *)

Section Strings.

Local Arguments String.append !_ _ / : simpl nomatch.


Lemma app_assoc_str (a b c : string) : (a +:+ b) +:+ c = a +:+ b +:+ c.
Proof. induction a as [|x a IH]; simpl; [done | by rewrite IH]. Qed.


Lemma occurs_app (c : ascii) (a b : string) :
  occurs c (a +:+ b) = occurs c a || occurs c b.
Proof.
  induction a as [|x a IH]; simpl; [done|].
  case_bool_decide; [done | apply IH].
Qed.

Lemma endswith_refl (s : string) : endswith s s = true.
Proof. destruct s; simpl; [done | by rewrite bool_decide_eq_true_2]. Qed.

(** [endswith] is the suffix test. *)
Lemma endswith_spec (suffix s : string) :
  endswith suffix s = true ↔ ∃ pre, s = pre +:+ suffix.
Proof.
  split.
  - induction s as [|c s IH]; simpl; case_bool_decide as Heq.
    + intros _. exists "". by subst.
    + done.
    + intros _. exists "". by subst.
    + intros [pre ->]%IH. by exists (String c pre).
  - intros [pre ->]. induction pre as [|c pre IH]; simpl.
    + apply endswith_refl.
    + case_bool_decide; [done | apply IH].
Qed.

Lemma endswith_occurs (c : ascii) (suffix s : string) :
  endswith suffix s = true → occurs c suffix = true → occurs c s = true.
Proof.
  intros [pre ->]%endswith_spec Hc. rewrite occurs_app, Hc. apply orb_true_r.
Qed.

(** A suffix of [p +:+ x] is a suffix of [x] or reaches into [p]. *)
Lemma endswith_app_inv (suffix p x : string) :
  endswith suffix (p +:+ x) = true →
  endswith suffix x = true ∨ ∃ p', suffix = p' +:+ x.
Proof.
  induction p as [|c p IH]; simpl; [by left|].
  case_bool_decide as Heq.
  - intros _. right. exists (String c p). by rewrite <- Heq.
  - apply IH.
Qed.

Lemma occurs_sep (p n : string) : occurs ":" (p +:+ "::" +:+ n) = true.
Proof. rewrite occurs_app. simpl. apply orb_true_r. Qed.

Lemma sep_head (a : ascii) (b x y : string) :
  occurs ":" x = false → "::" +:+ x = String a b +:+ "::" +:+ y → False.
Proof.
  intros Hx Heq. simpl in Heq. injection Heq as _ Heq.
  destruct b as [|c b]; simpl in Heq; injection Heq as Heq; subst x.
  - done.
  - rewrite occurs_app in Hx. simpl in Hx. by rewrite orb_true_r in Hx.
Qed.

(** The last [::] of an identity splits it in one way. *)
Lemma sep_inj (p q n n' : string) :
  occurs ":" n = false → occurs ":" n' = false →
  p +:+ "::" +:+ n = q +:+ "::" +:+ n' → p = q ∧ n = n'.
Proof.
  intros Hn Hn'. revert q. induction p as [|c p IH]; intros q Heq.
  - destruct q as [|c q].
    + simpl in Heq. by simplify_eq.
    + exfalso. by eapply (sep_head c q n n').
  - destruct q as [|c' q].
    + exfalso. by eapply (sep_head c p n' n).
    + simpl in Heq. injection Heq as <- Heq.
      destruct (IH q Heq) as [-> ->]. done.
Qed.

(** An identity [p::n] with [n] free of dots is no [.py] path. *)
Lemma endswith_py_sep (p n : string) :
  occurs "." n = false → endswith ".py" (p +:+ "::" +:+ n) = false.
Proof.
  intros Hn. apply not_true_is_false. intros H.
  apply endswith_app_inv in H as [H | [p' H]].
  - simpl in H.
    pose proof (endswith_occurs "." _ _ H eq_refl). congruence.
  - assert (occurs ":" ".py" = true) as Hc; [|done].
    rewrite H. apply occurs_sep.
Qed.

Lemma os_path_join_slash (a b : string) :
  a ≠ "" → occurs "/" (os_path_join a b) = true.
Proof.
  intros Ha. unfold os_path_join.
  assert (occurs "/" (if bool_decide (a = "") || endswith "/" a
                      then a +:+ b else a +:+ "/" +:+ b) = true) as Hgen.
  { rewrite bool_decide_eq_false_2 by done. simpl.
    destruct (endswith "/" a) eqn:He; rewrite occurs_app.
    - by rewrite (endswith_occurs "/" _ _ He eq_refl).
    - simpl. apply orb_true_r. }
  destruct b as [|c b]; [done|].
  destruct (decide (c = "/"%char)) as [->|Hc]; [done|].
  destruct c as [[] [] [] [] [] [] [] []]; try done.
Qed.


End Strings.

(** ** [ast.walk] yields every node of the tree, each once *)

Inductive subnode : node → node → Prop :=
| subnode_refl (n : node) : subnode n n
| subnode_child (x c n : node) :
    c ∈ iter_child_nodes n → subnode x c → subnode x n.

Section Walk.

Lemma node_size_children (n : node) :
  node_size n = S (total_size (iter_child_nodes n)).
Proof.
  assert (∀ l, (fix sizes (l : list node) : nat :=
                  match l with
                  | [] => 0
                  | x :: l' => node_size x + sizes l'
                  end) l = total_size l) as Hsizes.
  { induction l as [|x l IH]; [done|]. unfold total_size. simpl.
    by rewrite IH. }
  destruct n; simpl; rewrite ?Hsizes; done.
Qed.

Lemma total_size_app (l1 l2 : list node) :
  total_size (l1 ++ l2) = total_size l1 + total_size l2.
Proof. apply sum_list_with_app. Qed.

Lemma total_size_cons (n : node) (l : list node) :
  total_size (n :: l) = S (total_size (l ++ iter_child_nodes n)).
Proof.
  rewrite total_size_app. unfold total_size at 1. simpl.
  rewrite node_size_children. unfold total_size. lia.
Qed.

(** The fuel given to [walk_loop] never runs out: it yields one node per
    iteration, as many as the queue holds in all. *)
Lemma walk_loop_length (fuel : nat) (todo : list node) :
  total_size todo ≤ fuel → length (walk_loop fuel todo) = total_size todo.
Proof.
  revert todo. induction fuel as [|fuel IH]; intros [|n todo] Hle; try done.
  - rewrite total_size_cons in Hle. lia.
  - rewrite total_size_cons in Hle |- *. simpl. rewrite IH; lia.
Qed.

Lemma walk_loop_elem (fuel : nat) (todo : list node) (x : node) :
  total_size todo ≤ fuel →
  x ∈ walk_loop fuel todo ↔ ∃ t, t ∈ todo ∧ subnode x t.
Proof.
  revert todo. induction fuel as [|fuel IH]; intros [|n todo] Hle.
  - simpl. split; [by intros ?%elem_of_nil | by intros (?&?%elem_of_nil&?)].
  - rewrite total_size_cons in Hle. lia.
  - simpl. split; [by intros ?%elem_of_nil | by intros (?&?%elem_of_nil&?)].
  - rewrite total_size_cons in Hle.
    simpl. rewrite elem_of_cons, IH by lia. split.
    + intros [-> | (t & [Ht|Ht]%elem_of_app & Hsub)].
      * exists n. split; [left | constructor].
      * exists t. split; [by right | done].
      * exists n. split; [left | by econstructor].
    + intros (t & [->|Ht]%elem_of_cons & Hsub).
      * inversion Hsub as [|? c ? Hc Hsub']; subst; [by left|].
        right. exists c. split; [|done]. apply elem_of_app. by right.
      * right. exists t. split; [|done]. apply elem_of_app. by left.
Qed.

Lemma ast_walk_elem (tree x : node) : x ∈ ast_walk tree ↔ subnode x tree.
Proof.
  unfold ast_walk. rewrite walk_loop_elem.
  - split; [by intros (t & ->%list_elem_of_singleton & ?)|].
    intros ?. exists tree. split; [by apply list_elem_of_singleton | done].
  - unfold total_size. simpl. lia.
Qed.

Lemma ast_walk_length (tree : node) : length (ast_walk tree) = node_size tree.
Proof.
  unfold ast_walk. rewrite walk_loop_length; unfold total_size; simpl; lia.
Qed.

Lemma subnode_down (x c n : node) :
  subnode c n → x ∈ iter_child_nodes c → subnode x n.
Proof.
  induction 1 as [c|c c' n Hc' Hsub IH]; intros Hx.
  - eapply subnode_child; [done | constructor].
  - eapply subnode_child; [done | by apply IH].
Qed.

Lemma ast_walk_root (tree : node) : tree ∈ ast_walk tree.
Proof. apply ast_walk_elem. constructor. Qed.

End Walk.

(** ** Dictionaries *)

Section Dict.
Context {V : Type}.
Implicit Types (d : dict V) (k x : string) (v : V).

Lemma keys_dict_set k v d x : x ∈ keys (dict_set k v d) ↔ x = k ∨ x ∈ keys d.
Proof.
  unfold keys. induction d as [|[k' v'] d IH]; simpl.
  - rewrite list_elem_of_singleton. set_solver.
  - case_bool_decide as Hk; simpl.
    + subst k'. rewrite !elem_of_cons. naive_solver.
    + rewrite !elem_of_cons, IH. naive_solver.
Qed.

Lemma values_dict_set k v d w :
  w ∈ values (dict_set k v d) → w = v ∨ w ∈ values d.
Proof.
  unfold values. induction d as [|[k' v'] d IH]; simpl.
  - rewrite list_elem_of_singleton. by left.
  - case_bool_decide as Hk; simpl; rewrite !elem_of_cons; naive_solver.
Qed.

Lemma NoDup_dict_set k v d : NoDup (keys d) → NoDup (keys (dict_set k v d)).
Proof.
  induction d as [|[k' v'] d IH]; simpl.
  - intros _. apply NoDup_singleton.
  - intros [Hk' Hd]%NoDup_cons. case_bool_decide as Hk; simpl.
    + by apply NoDup_cons.
    + apply NoDup_cons. split; [|by apply IH].
      fold (keys (dict_set k v d)). rewrite keys_dict_set. naive_solver.
Qed.

Lemma dict_set_elem k v d (kv : string * V) :
  kv ∈ dict_set k v d → kv = (k, v) ∨ kv ∈ d.
Proof.
  induction d as [|[k' v'] d IH]; simpl.
  - intros ?%list_elem_of_singleton. by left.
  - case_bool_decide as Hk; rewrite !elem_of_cons; [naive_solver|].
    intros [?|?%IH]; naive_solver.
Qed.

End Dict.

(** ** Runs of steps *)

(** Repeated [m[k] = v] on a plain dictionary: the last assignment to a key
    decides its value. *)
Section Writes.
Context {V : Type}.
Implicit Types (m : gmap string V) (ws : list (string * V)).

Definition write_all m ws : gmap string V :=
  foldl (λ m kv, <[kv.1 := kv.2]> m) m ws.

Lemma write_all_snoc m ws k v :
  write_all m (ws ++ [(k, v)]) = <[k := v]> (write_all m ws).
Proof. unfold write_all. by rewrite foldl_app. Qed.

Lemma write_all_inv m ws k v :
  write_all m ws !! k = Some v → m !! k = Some v ∨ (k, v) ∈ ws.
Proof.
  induction ws as [|[k' v'] ws IH] using rev_ind; [by left|].
  rewrite write_all_snoc, lookup_insert. case_decide as Hk.
  - intros [= ->]. subst k'. right. apply elem_of_app. right. by left.
  - intros [?|?]%IH; [by left|]. right. apply elem_of_app. by left.
Qed.

Lemma write_all_same m ws k v :
  (k, v) ∈ ws → (∀ v', (k, v') ∈ ws → v' = v) → write_all m ws !! k = Some v.
Proof.
  induction ws as [|[k' v'] ws IH] using rev_ind; [by intros ?%elem_of_nil|].
  intros Hin Hall. rewrite write_all_snoc, lookup_insert. case_decide as Hk.
  - subst k'. f_equal. apply Hall, elem_of_app. right. by left.
  - apply IH.
    + apply elem_of_app in Hin as [?|[=]%list_elem_of_singleton]; [done|].
      congruence.
    + intros v'' ?. apply Hall, elem_of_app. by left.
Qed.

Lemma write_all_untouched m ws k :
  (∀ v, (k, v) ∉ ws) → write_all m ws !! k = m !! k.
Proof.
  induction ws as [|[k' v'] ws IH] using rev_ind; [done|].
  intros Hall. rewrite write_all_snoc, lookup_insert. case_decide as Hk.
  - subst k'. exfalso. apply (Hall v'), elem_of_app. right. by left.
  - apply IH. intros v ?. apply (Hall v), elem_of_app. by left.
Qed.

Lemma write_all_is_Some m ws k :
  is_Some (write_all m ws !! k) ↔ is_Some (m !! k) ∨ ∃ v, (k, v) ∈ ws.
Proof.
  induction ws as [|[k' v'] ws IH] using rev_ind.
  - simpl. split; [by left|]. intros [?|[? ?%elem_of_nil]]; done.
  - rewrite write_all_snoc, lookup_insert. case_decide as Hk.
    + subst k'. split; [|by eauto]. intros _. right. exists v'.
      apply elem_of_app. right. by left.
    + rewrite IH. split.
      * intros [?|[v ?]]; [by left|]. right. exists v. apply elem_of_app. by left.
      * intros [?|[v [?|[=]%list_elem_of_singleton]%elem_of_app]];
          [by left | right; by exists v | congruence].
Qed.

End Writes.

Definition function_code_writes (l : list op) : list (string * string) :=
  omap (λ o, match o with SetFunctionCode k c => Some (k, c) | _ => None end) l.

Definition class_code_writes (l : list op) : list (string * string) :=
  omap (λ o, match o with SetClassCode k c => Some (k, c) | _ => None end) l.

Section Steps.
Implicit Types (st : builder) (l : list op) (o : op) (k u v : string).

Lemma steps_snoc st l o : steps st (l ++ [o]) = step (steps st l) o.
Proof. unfold steps. by rewrite foldl_app. Qed.

Lemma steps_app st l1 l2 : steps st (l1 ++ l2) = steps (steps st l1) l2.
Proof. unfold steps. by rewrite foldl_app. Qed.

Lemma function_code_writes_elem l k c :
  (k, c) ∈ function_code_writes l ↔ SetFunctionCode k c ∈ l.
Proof.
  unfold function_code_writes. rewrite list_elem_of_omap. split.
  - intros (o & Ho & Heq). destruct o; by simplify_eq.
  - intros ?. by eexists.
Qed.

Lemma class_code_writes_elem l k c :
  (k, c) ∈ class_code_writes l ↔ SetClassCode k c ∈ l.
Proof.
  unfold class_code_writes. rewrite list_elem_of_omap. split.
  - intros (o & Ho & Heq). destruct o; by simplify_eq.
  - intros ?. by eexists.
Qed.

Lemma steps_function_codes st l :
  function_codes (steps st l) = write_all (function_codes st) (function_code_writes l).
Proof.
  induction l as [|o l IH] using rev_ind; [done|].
  rewrite steps_snoc. unfold function_code_writes in *. rewrite omap_app.
  destruct o; simpl; rewrite ?app_nil_r, ?write_all_snoc; by rewrite IH.
Qed.

Lemma steps_class_codes st l :
  class_codes (steps st l) = write_all (class_codes st) (class_code_writes l).
Proof.
  induction l as [|o l IH] using rev_ind; [done|].
  rewrite steps_snoc. unfold class_code_writes in *. rewrite omap_app.
  destruct o; simpl; rewrite ?app_nil_r, ?write_all_snoc; by rewrite IH.
Qed.

(** The edge set only grows, by the edges of the [add_edge] calls. *)
Lemma steps_edges st l u v :
  (u, v) ∈ edges (G (steps st l)) ↔ (u, v) ∈ edges (G st) ∨ AddEdge u v ∈ l.
Proof.
  induction l as [|o l IH] using rev_ind.
  - simpl. split; [by left|]. intros [?|?%elem_of_nil]; done.
  - rewrite steps_snoc, elem_of_app, list_elem_of_singleton.
    destruct o; simpl; rewrite ?elem_of_union, ?elem_of_singleton, IH;
      naive_solver.
Qed.

Lemma ensure_node_lookup (m : gmap string node_attrs) n k a :
  ensure_node n m !! k = Some a ↔
  m !! k = Some a ∨ (k = n ∧ m !! n = None ∧ a = Attrs None None).
Proof.
  unfold ensure_node. destruct (m !! n) eqn:Hn.
  - naive_solver.
  - rewrite lookup_insert. case_decide; naive_solver.
Qed.

Lemma ensure_node_keeps (m : gmap string node_attrs) n k a :
  m !! k = Some a → ensure_node n m !! k = Some a.
Proof. intros ?. apply ensure_node_lookup. by left. Qed.

Lemma ensure_node_is_Some (m : gmap string node_attrs) n :
  is_Some (ensure_node n m !! n).
Proof.
  unfold ensure_node. destruct (m !! n) eqn:Hn; [by rewrite Hn|].
  rewrite lookup_insert_eq. by eexists.
Qed.

(** When every [add_node] of a run gives identity [k] the same colour and
    type, these are its attributes at the end. *)
Lemma steps_nodes_same st l k c t :
  AddNode k c t ∈ l →
  (∀ c' t', AddNode k c' t' ∈ l → c' = c ∧ t' = t) →
  nodes (G (steps st l)) !! k = Some (Attrs (Some c) (Some t)).
Proof.
  induction l as [|o l IH] using rev_ind; [by intros ?%elem_of_nil|].
  intros Hin Hall. rewrite steps_snoc.
  assert (∀ c' t', AddNode k c' t' ∈ l → c' = c ∧ t' = t) as Hall'.
  { intros c' t' ?. apply Hall, elem_of_app. by left. }
  assert (o ≠ AddNode k c t →
          nodes (G (steps st l)) !! k = Some (Attrs (Some c) (Some t))) as IH'.
  { intros Ho. apply IH; [|done].
    apply elem_of_app in Hin as [?|?%list_elem_of_singleton]; done. }
  destruct o as [n c' t'|u v| | |]; simpl; try (by apply IH').
  - rewrite lookup_insert. case_decide as Hk; [|apply IH'; congruence].
    subst n. destruct (Hall c' t') as [-> ->]; [|done].
    apply elem_of_app. right. by left.
  - by apply ensure_node_keeps, ensure_node_keeps, IH'.
Qed.

Lemma steps_nodes_mono st l k :
  is_Some (nodes (G st) !! k) → is_Some (nodes (G (steps st l)) !! k).
Proof.
  induction l as [|o l IH] using rev_ind; [done|].
  intros [a Ha]%IH. rewrite steps_snoc. destruct o as [n c t|u v| | |]; simpl;
    try (by eexists).
  - rewrite lookup_insert. case_decide; by eexists.
  - exists a. by apply ensure_node_keeps, ensure_node_keeps.
Qed.

Lemma steps_node_added st l k c t :
  AddNode k c t ∈ l → is_Some (nodes (G (steps st l)) !! k).
Proof.
  intros (l1 & l2 & ->)%list_elem_of_split.
  rewrite steps_app.
  change (steps (steps st l1) (AddNode k c t :: l2))
    with (steps (step (steps st l1) (AddNode k c t)) l2).
  apply steps_nodes_mono. simpl. rewrite lookup_insert_eq. by eexists.
Qed.

(** Where the attributes of a node at the end of a run come from: the
    state before, an [add_node], or an [add_edge] that met an unknown
    endpoint which no [add_node] of the run names. *)
Lemma steps_nodes_inv st l k a :
  nodes (G (steps st l)) !! k = Some a →
  nodes (G st) !! k = Some a
  ∨ (∃ c t, a = Attrs (Some c) (Some t) ∧ AddNode k c t ∈ l)
  ∨ (a = Attrs None None
     ∧ (∃ x, AddEdge k x ∈ l ∨ AddEdge x k ∈ l)
     ∧ ∀ c t, AddNode k c t ∉ l).
Proof.
  revert a. induction l as [|o l IH] using rev_ind; intros a; [by left|].
  rewrite steps_snoc.
  assert ((∀ c t, o ≠ AddNode k c t) →
          nodes (G (steps st l)) !! k = Some a →
          nodes (G st) !! k = Some a
          ∨ (∃ c t, a = Attrs (Some c) (Some t) ∧ AddNode k c t ∈ l ++ [o])
          ∨ (a = Attrs None None
             ∧ (∃ x, AddEdge k x ∈ l ++ [o] ∨ AddEdge x k ∈ l ++ [o])
             ∧ ∀ c t, AddNode k c t ∉ l ++ [o])) as IH'.
  { intros Ho [?|[(c & t & -> & ?)|(-> & (x & Hx) & Hno)]]%IH; [by left|..].
    - right; left. exists c, t. split; [done|]. apply elem_of_app. by left.
    - right; right. split_and!; [done|..].
      + exists x. rewrite !elem_of_app. naive_solver.
      + intros c t [?|Heq%list_elem_of_singleton]%elem_of_app;
          [by eapply Hno | by eapply Ho]. }
  assert (∀ u v, (k = u ∨ k = v) → nodes (G (steps st l)) !! k = None →
          a = Attrs None None →
          a = Attrs None None
          ∧ (∃ x, AddEdge k x ∈ l ++ [AddEdge u v] ∨ AddEdge x k ∈ l ++ [AddEdge u v])
          ∧ ∀ c t, AddNode k c t ∉ l ++ [AddEdge u v]) as Hnew.
  { intros u v Hk Hnone ->. split_and!; [done|..].
    - destruct Hk as [->| ->]; [exists v | exists u]; rewrite !elem_of_app,
        !list_elem_of_singleton; naive_solver.
    - intros c t [Hin|[=]%list_elem_of_singleton]%elem_of_app.
      apply (steps_node_added st) in Hin as [? ?]. congruence. }
  destruct o as [n c' t'|u v| | |]; simpl; try (by apply IH').
  - rewrite lookup_insert. case_decide as Hk; [|apply IH'; congruence].
    intros [= <-]. subst n. right; left. exists c', t'. split; [done|].
    apply elem_of_app. right. by left.
  - intros [[?|(Hk&Hnone&?)]%ensure_node_lookup|(Hk&Hnone&?)]%ensure_node_lookup.
    + by apply IH'.
    + right; right. apply (Hnew u v); [by left | by subst | done].
    + right; right. apply (Hnew u v); [by right| |done]. subst k.
      unfold ensure_node in Hnone.
      destruct (nodes (G (steps st l)) !! u) eqn:Hu; [done|].
      rewrite lookup_insert in Hnone. by case_decide.
Qed.

Lemma steps_file_nodes_keys st l k :
  k ∈ keys (file_nodes (steps st l)) ↔
  k ∈ keys (file_nodes st) ∨ ∃ v, SetFileNode k v ∈ l.
Proof.
  induction l as [|o l IH] using rev_ind.
  - simpl. split; [by left|]. intros [?|[? ?%elem_of_nil]]; done.
  - rewrite steps_snoc.
    assert (k ∈ keys (file_nodes (steps st l)) ∨ (∃ v, o = SetFileNode k v) ↔
            k ∈ keys (file_nodes st) ∨ ∃ v, SetFileNode k v ∈ l ++ [o]) as Hgen.
    { rewrite IH. setoid_rewrite elem_of_app.
      setoid_rewrite list_elem_of_singleton. naive_solver. }
    rewrite <- Hgen.
    destruct o; simpl; rewrite ?keys_dict_set; naive_solver.
Qed.

Lemma steps_file_nodes_values st l v :
  v ∈ values (file_nodes (steps st l)) →
  v ∈ values (file_nodes st) ∨ ∃ k, SetFileNode k v ∈ l.
Proof.
  induction l as [|o l IH] using rev_ind; [by left|].
  rewrite steps_snoc.
  assert (v ∈ values (file_nodes (steps st l)) ∨ (∃ k, o = SetFileNode k v) →
          v ∈ values (file_nodes st) ∨ ∃ k, SetFileNode k v ∈ l ++ [o]) as Hgen.
  { setoid_rewrite elem_of_app. setoid_rewrite list_elem_of_singleton.
    naive_solver. }
  intros Hv. apply Hgen.
  destruct o; simpl in Hv; try (by left).
  apply values_dict_set in Hv as [->|?]; [right; by eexists | by left].
Qed.

End Steps.

(** ** [parse_imports] *)

(** The flat identifiers of one import statement in the specification's
    words: [MODULE.NAME] for [from MODULE import NAME], just [NAME] when
    the module part is empty, and [NAME] for [import NAME]. *)
Definition spec_flat_identifiers (n : node) : list string :=
  match n with
  | Import names => alias_name <$> names
  | ImportFrom (Some m) names _ =>
      if bool_decide (m = "") then alias_name <$> names
      else (λ a, m +:+ "." +:+ alias_name a) <$> names
  | ImportFrom None names _ => alias_name <$> names
  | _ => []
  end.

(** The dictionary [parse_imports] builds from a parsed tree. *)
Definition imports_of (tree : node) : dict (gset string) :=
  fold_left parse_imports_node (ast_walk tree) [].

Section ParseImports.
Implicit Types (d : dict (gset string)) (n : node) (x : string).

Lemma fold_dict_set_keys {A : Type} (f : A → string) (g : A → gset string)
    (l : list A) d x :
  x ∈ keys (fold_left (λ d a, dict_set (f a) (g a) d) l d) ↔
  x ∈ keys d ∨ x ∈ f <$> l.
Proof.
  revert d. induction l as [|a l IH]; intros d; simpl.
  - rewrite elem_of_nil. naive_solver.
  - rewrite IH, keys_dict_set, elem_of_cons. naive_solver.
Qed.

Lemma fold_dict_set_NoDup {A : Type} (f : A → string) (g : A → gset string)
    (l : list A) d :
  NoDup (keys d) → NoDup (keys (fold_left (λ d a, dict_set (f a) (g a) d) l d)).
Proof.
  revert d. induction l as [|a l IH]; intros d Hd; simpl; [done|].
  by apply IH, NoDup_dict_set.
Qed.

Lemma parse_imports_node_keys d n x :
  x ∈ keys (parse_imports_node d n) ↔ x ∈ keys d ∨ x ∈ spec_flat_identifiers n.
Proof.
  destruct n as [| | | |names|m names lvl|]; simpl;
    try (rewrite elem_of_nil; naive_solver).
  - apply fold_dict_set_keys.
  - destruct m as [m|]; simpl.
    + case_bool_decide; apply fold_dict_set_keys.
    + apply fold_dict_set_keys.
Qed.

Lemma parse_imports_node_NoDup d n :
  NoDup (keys d) → NoDup (keys (parse_imports_node d n)).
Proof.
  destruct n as [| | | |names|m names lvl|]; simpl; try done.
  - apply fold_dict_set_NoDup.
  - apply fold_dict_set_NoDup.
Qed.

Lemma fold_parse_imports_keys (l : list node) d x :
  x ∈ keys (fold_left parse_imports_node l d) ↔
  x ∈ keys d ∨ ∃ n, n ∈ l ∧ x ∈ spec_flat_identifiers n.
Proof.
  revert d. induction l as [|n l IH]; intros d; simpl.
  - split; [by left|]. intros [?|(?&?%elem_of_nil&?)]; done.
  - rewrite IH, parse_imports_node_keys. setoid_rewrite elem_of_cons.
    naive_solver.
Qed.

Lemma fold_parse_imports_NoDup (l : list node) d :
  NoDup (keys d) → NoDup (keys (fold_left parse_imports_node l d)).
Proof.
  revert d. induction l as [|n l IH]; intros d Hd; simpl; [done|].
  by apply IH, parse_imports_node_NoDup.
Qed.

Lemma imports_of_keys (tree : node) x :
  x ∈ keys (imports_of tree) ↔
  ∃ n, subnode n tree ∧ x ∈ spec_flat_identifiers n.
Proof.
  unfold imports_of. rewrite fold_parse_imports_keys.
  setoid_rewrite ast_walk_elem. split; [|by right].
  by intros [?%elem_of_nil|?].
Qed.

Lemma imports_of_NoDup (tree : node) : NoDup (keys (imports_of tree)).
Proof. apply fold_parse_imports_NoDup. constructor. Qed.

Lemma parse_imports_eq (env : Env) (file_path : string) :
  parse_imports env file_path =
  bind (parse_file env file_path) (λ tree, Ok (imports_of tree)).
Proof. done. Qed.

End ParseImports.

(** ** The run as one sequence of steps *)

(** The paths the loops of [build_import_graph] reach, in order. *)
Definition py_files (e : walk_entry) : list string :=
  os_path_join (root e) <$> filter (λ f, endswith ".py" f = true) (files e).

Definition py_paths (entries : list walk_entry) : list string :=
  entries ≫= py_files.

(** The steps taken for one file whose source parses to [tree]. *)
Definition file_ops (env : Env) (file_path : string) (tree : node) : list op :=
  [ AddNode file_path "blue" "file"; SetFileNode file_path file_path ]
  ++ (ast_walk tree ≫= visit env file_path)
  ++ (imports_of tree ≫= visit_import file_path).

(** The steps of a whole run over [paths]. *)
Definition trace (env : Env) (paths : list string) : list op :=
  paths ≫= (λ p, match parse_file env p with
                 | Ok tree => file_ops env p tree
                 | Raise _ => []
                 end).

Fixpoint for_paths (env : Env) (paths : list string) (st : builder)
  : result builder :=
  match paths with
  | [] => Ok st
  | p :: rest => bind (process_file env p st) (for_paths env rest)
  end.

Section Run.
Context (env : Env).
Implicit Types (st : builder) (p : string) (paths : list string) (o : op).

Lemma process_file_eq p st :
  process_file env p st =
  bind (parse_file env p) (λ tree, Ok (steps st (file_ops env p tree))).
Proof.
  unfold process_file. rewrite parse_imports_eq.
  destruct (parse_file env p) as [tree|e]; simpl; [|done].
  unfold file_ops. by rewrite !steps_app.
Qed.

Lemma for_files_eq (r : string) (fl : list string) st :
  for_files env r fl st = for_paths env (py_files (WalkEntry r fl)) st.
Proof.
  unfold py_files. simpl. revert st. induction fl as [|f fl IH]; intros st; [done|].
  simpl. rewrite filter_cons. destruct (endswith ".py" f) eqn:Hf.
  - rewrite decide_True by done. simpl.
    destruct (process_file env (os_path_join r f) st); simpl; [apply IH | done].
  - rewrite decide_False by congruence. apply IH.
Qed.

Lemma for_paths_app paths1 paths2 st :
  for_paths env (paths1 ++ paths2) st =
  bind (for_paths env paths1 st) (for_paths env paths2).
Proof.
  revert st. induction paths1 as [|p paths1 IH]; intros st; [done|].
  simpl. destruct (process_file env p st); simpl; [apply IH | done].
Qed.

Lemma for_walk_eq (entries : list walk_entry) st :
  for_walk env entries st = for_paths env (py_paths entries) st.
Proof.
  unfold py_paths. revert st.
  induction entries as [|[r fl] entries IH]; intros st; [done|].
  simpl. rewrite for_paths_app, for_files_eq.
  destruct (for_paths env _ st); simpl; [apply IH | done].
Qed.

(** A run completes exactly when every file can be read and parsed, and
    then it has taken the steps of [trace]. *)
Lemma for_paths_Ok paths st st' :
  for_paths env paths st = Ok st' ↔
  (∀ p, p ∈ paths → ∃ tree, parse_file env p = Ok tree)
  ∧ st' = steps st (trace env paths).
Proof.
  revert st st'. induction paths as [|p paths IH]; intros st st'.
  - simpl. split.
    + intros [= <-]. split; [by intros ? ?%elem_of_nil | done].
    + by intros [_ ->].
  - change (for_paths env (p :: paths) st)
      with (bind (process_file env p st) (for_paths env paths)).
    change (trace env (p :: paths))
      with (match parse_file env p with
            | Ok tree => file_ops env p tree
            | Raise _ => []
            end ++ trace env paths).
    rewrite process_file_eq.
    destruct (parse_file env p) as [tree|e] eqn:Hp; cbn [bind].
    + rewrite IH, steps_app. split.
      * intros [Hall ->]. split; [|done].
        intros q [->|?]%elem_of_cons; [by eexists | by apply Hall].
      * intros [Hall ->]. split; [|done].
        intros q ?. apply Hall. by right.
    + split; [done|]. intros [Hall _].
      destruct (Hall p) as [tree Htree]; [by left | congruence].
Qed.

Lemma for_paths_Raise paths st e :
  for_paths env paths st = Raise e → ∃ p, p ∈ paths ∧ parse_file env p = Raise e.
Proof.
  revert st. induction paths as [|p paths IH]; intros st; simpl; [done|].
  rewrite process_file_eq.
  destruct (parse_file env p) as [tree|e'] eqn:Hp; simpl.
  - intros (q & ? & ?)%IH. exists q. split; [by right | done].
  - intros [= ->]. exists p. split; [by left | done].
Qed.


Lemma trace_elem paths o :
  o ∈ trace env paths ↔
  ∃ p tree, p ∈ paths ∧ parse_file env p = Ok tree ∧ o ∈ file_ops env p tree.
Proof.
  unfold trace. rewrite list_elem_of_bind. split.
  - intros (p & Ho & Hp). destruct (parse_file env p) as [tree|e] eqn:Hparse.
    + by exists p, tree.
    + by apply elem_of_nil in Ho.
  - intros (p & tree & Hp & Hparse & Ho). exists p. by rewrite Hparse.
Qed.

(** The result of [build_import_graph], read off its trace. *)
Lemma build_import_graph_Ok (directory : string) Gr fn codes :
  build_import_graph env directory = Ok (Gr, fn, codes) ↔
  let paths := py_paths (os_walk env directory) in
  let st := steps initial (trace env paths) in
  (∀ p, p ∈ paths → ∃ tree, parse_file env p = Ok tree)
  ∧ Gr = G st ∧ fn = file_nodes st ∧ codes = class_codes st ∪ function_codes st.
Proof.
  unfold build_import_graph. rewrite for_walk_eq. simpl.
  destruct (for_paths env _ initial) as [st'|e] eqn:Hrun; simpl.
  - apply for_paths_Ok in Hrun as [Hall ->]. split.
    + by intros [= <- <- <-].
    + by intros (_ & -> & -> & ->).
  - split; [done|]. intros (Hall & _).
    assert (for_paths env (py_paths (os_walk env directory)) initial
            = Ok (steps initial (trace env (py_paths (os_walk env directory)))))
      as Hok by by apply for_paths_Ok.
    congruence.
Qed.

Lemma build_import_graph_Raise (directory : string) e :
  build_import_graph env directory = Raise e →
  ∃ p, p ∈ py_paths (os_walk env directory) ∧ parse_file env p = Raise e.
Proof.
  unfold build_import_graph. rewrite for_walk_eq.
  destruct (for_paths env _ initial) as [st'|e'] eqn:Hrun; simpl; [done|].
  intros [= ->]. by eapply for_paths_Raise.
Qed.

(** What the steps taken for one node of the walk can be. *)
Lemma visit_item_elem (class_name : string) (item : node) o :
  o ∈ visit_item env class_name item ↔
  ∃ m args body, item = FunctionDef m args body
    ∧ o ∈ [ AddNode (class_name +:+ "::" +:+ m) "green" "function";
            AddEdge class_name (class_name +:+ "::" +:+ m);
            SetFunctionCode (class_name +:+ "::" +:+ m) (ast_unparse env item) ].
Proof.
  destruct item; simpl;
    try (split; [by intros ?%elem_of_nil | by intros (?&?&?&?&?)]).
  split; [by eauto | by intros (?&?&?&[= <- <- <-]&?)].
Qed.

Lemma visit_elem (file_node : string) (n : node) o :
  o ∈ visit env file_node n ↔
  (∃ name args body, n = FunctionDef name args body
     ∧ o ∈ [ AddNode (file_node +:+ "::" +:+ name) "green" "function";
             AddEdge file_node (file_node +:+ "::" +:+ name);
             SetFunctionCode (file_node +:+ "::" +:+ name) (ast_unparse env n) ])
  ∨ (∃ name bases body, n = ClassDef name bases body
     ∧ (o ∈ [ AddNode (file_node +:+ "::" +:+ name) "red" "class";
              AddEdge file_node (file_node +:+ "::" +:+ name);
              SetClassCode (file_node +:+ "::" +:+ name) (ast_unparse env n) ]
        ∨ ∃ item, item ∈ body
            ∧ o ∈ visit_item env (file_node +:+ "::" +:+ name) item)).
Proof.
  destruct n as [|name args body| |name bases body| | |]; simpl;
    try (split; [by intros ?%elem_of_nil | by intros [(?&?&?&?&?)|(?&?&?&?&?)]]).
  - split; [left; by eauto | by intros [(?&?&?&[= <- <- <-]&?)|(?&?&?&?&?)]].
  - change (?a :: ?b :: ?c :: body ≫= ?f) with ([a; b; c] ++ (body ≫= f)).
    rewrite elem_of_app, list_elem_of_bind. split.
    + intros H. right. exists name, bases, body. split; [done|]. naive_solver.
    + intros [(?&?&?&?&?)|(?&?&?&[= <- <- <-]&H)]; [done|]. naive_solver.
Qed.

Lemma file_ops_elem p (tree : node) o :
  o ∈ file_ops env p tree ↔
  o = AddNode p "blue" "file" ∨ o = SetFileNode p p
  ∨ (∃ n, subnode n tree ∧ o ∈ visit env p n)
  ∨ (∃ X, X ∈ keys (imports_of tree)
       ∧ (o = AddNode X "yellow" "module" ∨ o = AddEdge p X)).
Proof.
  unfold file_ops. rewrite !elem_of_app, !list_elem_of_bind.
  rewrite elem_of_cons, list_elem_of_singleton.
  setoid_rewrite ast_walk_elem.
  assert ((∃ y : string * gset string, o ∈ visit_import p y ∧ y ∈ imports_of tree)
          ↔ ∃ X, X ∈ keys (imports_of tree)
              ∧ (o = AddNode X "yellow" "module" ∨ o = AddEdge p X)) as ->.
  { unfold keys. setoid_rewrite list_elem_of_fmap. split.
    - intros ([X s] & Ho & Hin). exists X. split; [by exists (X, s)|].
      simpl in Ho. rewrite elem_of_cons, list_elem_of_singleton in Ho. done.
    - intros (X & ([X' s] & -> & Hin) & Ho). exists (X', s). split; [|done].
      simpl. rewrite elem_of_cons, list_elem_of_singleton. done. }
  naive_solver.
Qed.

End Run.

(** ** Where the steps of a run come from *)

(** Every step of a run belongs to a file, to a declaration met by the
    walk, to a function of a class body, or to an imported identifier. *)
Inductive emitted (env : Env) (paths : list string) : op → Prop :=
| emitted_file p tree o :
    p ∈ paths → parse_file env p = Ok tree →
    o ∈ [ AddNode p "blue" "file"; SetFileNode p p ] →
    emitted env paths o
| emitted_function p tree name args body o :
    p ∈ paths → parse_file env p = Ok tree →
    subnode (FunctionDef name args body) tree →
    o ∈ [ AddNode (p +:+ "::" +:+ name) "green" "function";
          AddEdge p (p +:+ "::" +:+ name);
          SetFunctionCode (p +:+ "::" +:+ name)
                          (ast_unparse env (FunctionDef name args body)) ] →
    emitted env paths o
| emitted_class p tree name bases body o :
    p ∈ paths → parse_file env p = Ok tree →
    subnode (ClassDef name bases body) tree →
    o ∈ [ AddNode (p +:+ "::" +:+ name) "red" "class";
          AddEdge p (p +:+ "::" +:+ name);
          SetClassCode (p +:+ "::" +:+ name)
                       (ast_unparse env (ClassDef name bases body)) ] →
    emitted env paths o
| emitted_method p tree C cbases cbody m margs mbody o :
    p ∈ paths → parse_file env p = Ok tree →
    subnode (ClassDef C cbases cbody) tree → FunctionDef m margs mbody ∈ cbody →
    o ∈ [ AddNode ((p +:+ "::" +:+ C) +:+ "::" +:+ m) "green" "function";
          AddEdge (p +:+ "::" +:+ C) ((p +:+ "::" +:+ C) +:+ "::" +:+ m);
          SetFunctionCode ((p +:+ "::" +:+ C) +:+ "::" +:+ m)
                          (ast_unparse env (FunctionDef m margs mbody)) ] →
    emitted env paths o
| emitted_module p tree X o :
    p ∈ paths → parse_file env p = Ok tree →
    X ∈ keys (imports_of tree) →
    o ∈ [ AddNode X "yellow" "module"; AddEdge p X ] →
    emitted env paths o.

Lemma trace_emitted (env : Env) (paths : list string) (o : op) :
  o ∈ trace env paths ↔ emitted env paths o.
Proof.
  rewrite trace_elem. split.
  - intros (p & tree & Hp & Hparse & Ho).
    apply file_ops_elem in Ho as [->|[->|[(n & Hn & Ho)|(X & HX & Ho)]]].
    + eapply emitted_file; [done..|]. by left.
    + eapply emitted_file; [done..|]. right. by left.
    + apply visit_elem in Ho
        as [(name & args & body & -> & Ho)
           |(name & bases & body & -> & [Ho|(item & Hitem & Ho)])].
      * by eapply emitted_function.
      * by eapply emitted_class.
      * apply visit_item_elem in Ho as (m & margs & mbody & -> & Ho).
        by eapply emitted_method.
    + eapply emitted_module; [done..|].
      rewrite elem_of_cons, list_elem_of_singleton. done.
  - intros [p tree o' Hp Hparse Ho
           |p tree name args body o' Hp Hparse Hsub Ho
           |p tree name args body o' Hp Hparse Hsub Ho
           |p tree C cbases cbody m margs mbody o' Hp Hparse Hsub Hm Ho
           |p tree X o' Hp Hparse HX Ho];
      exists p, tree; (split; [done|]); (split; [done|]); apply file_ops_elem.
    + rewrite elem_of_cons, list_elem_of_singleton in Ho. naive_solver.
    + right; right; left. eexists. split; [done|]. apply visit_elem.
      left. by eauto.
    + right; right; left. eexists. split; [done|]. apply visit_elem.
      right. eexists _, _, _. split; [done|]. by left.
    + right; right; left. eexists. split; [done|]. apply visit_elem.
      right. eexists _, _, _. split; [done|]. right. eexists. split; [done|].
      apply visit_item_elem. by eauto.
    + right; right; right. exists X. split; [done|].
      rewrite elem_of_cons, list_elem_of_singleton in Ho. done.
Qed.

(** ** Well-formed input

    What Python's grammar and [os.walk] guarantee about the strings the
    script concatenates: a function or class name holds none of [:], [.]
    and [/]; a dotted module name holds no [:] and no [/]; the root of a
    walk entry is not the empty string. *)

Definition identifier (s : string) : bool :=
  negb (occurs ":" s) && negb (occurs "." s) && negb (occurs "/" s).

Definition dotted_name (s : string) : bool :=
  negb (occurs ":" s) && negb (occurs "/" s).

Definition wf_node (n : node) : bool :=
  match n with
  | FunctionDef name _ _ | AsyncFunctionDef name _ _ | ClassDef name _ _ =>
      identifier name
  | Import names => forallb (λ a, dotted_name (alias_name a)) names
  | ImportFrom m names _ =>
      from_option dotted_name true m
      && forallb (λ a, dotted_name (alias_name a)) names
  | Module_ _ | Other _ _ => true
  end.

Definition wf_tree (tree : node) : bool := forallb wf_node (ast_walk tree).

Definition wf_run (env : Env) (directory : string) : bool :=
  forallb (λ e, negb (bool_decide (root e = ""))) (os_walk env directory)
  && forallb (λ p, match parse_file env p with
                   | Ok tree => wf_tree tree
                   | Raise _ => true
                   end)
             (py_paths (os_walk env directory)).

(** The three shapes of identity, mutually exclusive. *)
Definition file_shape (k : string) : Prop :=
  occurs "/" k = true ∧ endswith ".py" k = true.

Definition decl_shape (k : string) : Prop :=
  ∃ u n, k = u +:+ "::" +:+ n ∧ occurs ":" n = false ∧ occurs "." n = false.

Definition module_shape (k : string) : Prop :=
  occurs ":" k = false ∧ occurs "/" k = false.

Ltac in_list H :=
  first [ apply elem_of_nil in H; destruct H
        | apply elem_of_cons in H as [H|H];
          [ try discriminate H; simplify_eq | in_list H ] ].

Section Shapes.
Implicit Types (k p X : string).

Lemma file_not_decl k : file_shape k → decl_shape k → False.
Proof.
  intros [_ Hpy] (u & n & -> & _ & Hdot).
  by rewrite endswith_py_sep in Hpy.
Qed.

Lemma file_not_module k : file_shape k → module_shape k → False.
Proof. intros [Hs _] [_ Hs']. congruence. Qed.

Lemma decl_not_module k : decl_shape k → module_shape k → False.
Proof. intros (u & n & -> & _) [Hc _]. by rewrite occurs_sep in Hc. Qed.

Lemma identifier_spec (s : string) :
  identifier s = true →
  occurs ":" s = false ∧ occurs "." s = false ∧ occurs "/" s = false.
Proof.
  unfold identifier. rewrite !andb_true_iff, !negb_true_iff. naive_solver.
Qed.

Lemma dotted_name_spec (s : string) :
  dotted_name s = true → module_shape s.
Proof.
  unfold dotted_name, module_shape. rewrite !andb_true_iff, !negb_true_iff.
  naive_solver.
Qed.

Lemma decl_shape_intro (u n : string) :
  identifier n = true → decl_shape (u +:+ "::" +:+ n).
Proof. intros (? & ? & _)%identifier_spec. by exists u, n. Qed.

Lemma os_path_join_endswith (a b suffix : string) :
  endswith suffix b = true → endswith suffix (os_path_join a b) = true.
Proof.
  intros [pre ->]%endswith_spec. apply endswith_spec. unfold os_path_join.
  assert (∃ pre', (if bool_decide (a = "") || endswith "/" a
                   then a +:+ pre +:+ suffix else a +:+ "/" +:+ pre +:+ suffix)
                  = pre' +:+ suffix) as Hgen.
  { destruct (bool_decide (a = "") || endswith "/" a).
    - exists (a +:+ pre). by rewrite app_assoc_str.
    - exists (a +:+ "/" +:+ pre). by rewrite !app_assoc_str. }
  destruct (pre +:+ suffix) as [|c s] eqn:Heq; [done|].
  destruct (decide (c = "/"%char)) as [->|Hc]; [by exists pre|].
  destruct c as [[] [] [] [] [] [] [] []]; done.
Qed.

Lemma wf_flat_identifier (n : node) X :
  wf_node n = true → X ∈ spec_flat_identifiers n → module_shape X.
Proof.
  assert (∀ names, forallb (λ a, dotted_name (alias_name a)) names = true →
            X ∈ alias_name <$> names → module_shape X) as Hnames.
  { intros names Hall (a & -> & Ha)%list_elem_of_fmap.
    rewrite forallb_forall in Hall. apply dotted_name_spec, Hall.
    by apply list_elem_of_In. }
  destruct n as [| | | |names|m names lvl|]; simpl;
    try (by intros _ ?%elem_of_nil).
  - apply Hnames.
  - intros [Hm Hall]%andb_true_iff. destruct m as [m|]; [|by apply Hnames].
    case_bool_decide; [by apply Hnames|].
    intros (a & -> & Ha)%list_elem_of_fmap.
    rewrite forallb_forall in Hall.
    apply dotted_name_spec in Hm as [Hm1 Hm2].
    destruct (dotted_name_spec (alias_name a)) as [Ha1 Ha2].
    { apply Hall. by apply list_elem_of_In. }
    unfold module_shape. rewrite !occurs_app, Hm1, Hm2.
    change (occurs ":" ("." +:+ alias_name a)) with (occurs ":" (alias_name a)).
    change (occurs "/" ("." +:+ alias_name a)) with (occurs "/" (alias_name a)).
    by rewrite Ha1, Ha2.
Qed.

End Shapes.

Section WellFormedRun.
Context (env : Env) (directory : string).
Let paths := py_paths (os_walk env directory).
Hypothesis Hwf : wf_run env directory = true.

Lemma wf_run_path p : p ∈ paths → file_shape p.
Proof.
  apply andb_true_iff in Hwf as [Hroots _]. rewrite forallb_forall in Hroots.
  unfold paths, py_paths, py_files.
  intros (e & (f & -> & [Hpy Hf]%list_elem_of_filter)%list_elem_of_fmap & He)
    %list_elem_of_bind.
  split.
  - apply os_path_join_slash.
    apply list_elem_of_In, Hroots, negb_true_iff, bool_decide_eq_false in He.
    done.
  - by apply os_path_join_endswith.
Qed.

Lemma wf_run_node p tree (n : node) :
  p ∈ paths → parse_file env p = Ok tree → subnode n tree → wf_node n = true.
Proof.
  apply andb_true_iff in Hwf as [_ Htrees]. rewrite forallb_forall in Htrees.
  intros Hp%list_elem_of_In Hparse Hn%ast_walk_elem%list_elem_of_In.
  specialize (Htrees p Hp). rewrite Hparse in Htrees.
  unfold wf_tree in Htrees. rewrite forallb_forall in Htrees. by apply Htrees.
Qed.

Lemma wf_run_import p tree X :
  p ∈ paths → parse_file env p = Ok tree → X ∈ keys (imports_of tree) →
  module_shape X.
Proof.
  intros Hp Hparse (n & Hn & HX)%imports_of_keys.
  eapply wf_flat_identifier; [|done]. by eapply wf_run_node.
Qed.

(** The colour and type an [add_node] of the run gives go with the shape
    of the identity. *)
Lemma emitted_AddNode_shape k c t :
  emitted env paths (AddNode k c t) →
  (c = "blue" ∧ t = "file" ∧ file_shape k)
  ∨ ((c = "green" ∧ t = "function" ∨ c = "red" ∧ t = "class") ∧ decl_shape k)
  ∨ (c = "yellow" ∧ t = "module" ∧ module_shape k).
Proof.
  inversion 1 as [p tree o' Hp Hparse Ho
                 |p tree name args body o' Hp Hparse Hsub Ho
                 |p tree name args body o' Hp Hparse Hsub Ho
                 |p tree C cbases cbody m margs mbody o' Hp Hparse Hsub Hm Ho
                 |p tree X o' Hp Hparse HX Ho]; subst o'; in_list Ho.
  - left. split_and!; [done..|]. by apply wf_run_path.
  - right; left. split; [by left|].
    apply decl_shape_intro. by apply (wf_run_node p tree _ Hp Hparse Hsub).
  - right; left. split; [by right|].
    apply decl_shape_intro. by apply (wf_run_node p tree _ Hp Hparse Hsub).
  - right; left. split; [by left|].
    apply decl_shape_intro.
    apply (wf_run_node p tree (FunctionDef m margs mbody) Hp Hparse).
    by eapply subnode_down.
  - right; right. split_and!; [done..|]. by eapply wf_run_import.
Qed.

End WellFormedRun.

(** ** The graph a completed run returns *)

(** [a ∷ b] is the identity [f"{a}::{b}"]. *)
Notation "a ∷ b" := (a +:+ "::" +:+ b) (at level 59, left associativity).

Abbreviation file_attrs := (Attrs (Some "blue") (Some "file")).
Abbreviation function_attrs := (Attrs (Some "green") (Some "function")).
Abbreviation class_attrs := (Attrs (Some "red") (Some "class")).
Abbreviation module_attrs := (Attrs (Some "yellow") (Some "module")).

Lemma emitted_edge_endpoints (env : Env) (paths : list string) (u v : string) :
  emitted env paths (AddEdge u v) →
  (∃ c t, emitted env paths (AddNode u c t))
  ∧ (∃ c t, emitted env paths (AddNode v c t)).
Proof.
  inversion 1 as [p tree o' Hp Hparse Ho
                 |p tree name args body o' Hp Hparse Hsub Ho
                 |p tree name args body o' Hp Hparse Hsub Ho
                 |p tree C cbases cbody m margs mbody o' Hp Hparse Hsub Hm Ho
                 |p tree X o' Hp Hparse HX Ho]; subst o'; in_list Ho.
  - split; eexists _, _.
    + eapply emitted_file; [done..|]. by left.
    + eapply emitted_function; [done..|]. by left.
  - split; eexists _, _.
    + eapply emitted_file; [done..|]. by left.
    + eapply emitted_class; [done..|]. by left.
  - split; eexists _, _.
    + eapply emitted_class; [done..|]. by left.
    + eapply emitted_method; [done..|]. by left.
  - split; eexists _, _.
    + eapply emitted_file; [done..|]. by left.
    + eapply emitted_module; [done..|]. by left.
Qed.

Section BuiltGraph.
Context (env : Env) (directory : string).
Context (Gr : DiGraph) (fn : dict string) (codes : gmap string string).
Hypothesis Hbuild : build_import_graph env directory = Ok (Gr, fn, codes).
Let paths := py_paths (os_walk env directory).
Implicit Types (k u v p : string) (a : node_attrs).

Lemma built_parsed p : p ∈ paths → ∃ tree, parse_file env p = Ok tree.
Proof. apply build_import_graph_Ok in Hbuild as (Hall & _). apply Hall. Qed.

Lemma built_edge u v : (u, v) ∈ edges Gr ↔ emitted env paths (AddEdge u v).
Proof.
  apply build_import_graph_Ok in Hbuild as (_ & -> & _).
  rewrite steps_edges, trace_emitted. simpl. set_solver.
Qed.

Lemma built_node_present k c t :
  emitted env paths (AddNode k c t) → is_Some (nodes Gr !! k).
Proof.
  apply build_import_graph_Ok in Hbuild as (_ & -> & _).
  intros ?%trace_emitted. by eapply steps_node_added.
Qed.

Lemma built_node_uniform k c t :
  emitted env paths (AddNode k c t) →
  (∀ c' t', emitted env paths (AddNode k c' t') → c' = c ∧ t' = t) →
  nodes Gr !! k = Some (Attrs (Some c) (Some t)).
Proof.
  apply build_import_graph_Ok in Hbuild as (_ & -> & _).
  intros Hin%trace_emitted Hall. apply steps_nodes_same; [done|].
  intros c' t' ?%trace_emitted. by apply Hall.
Qed.

Lemma built_node_inv k a :
  nodes Gr !! k = Some a →
  ∃ c t, a = Attrs (Some c) (Some t) ∧ emitted env paths (AddNode k c t).
Proof.
  apply build_import_graph_Ok in Hbuild as (_ & -> & _).
  intros [Hinit|[(c & t & -> & Hin)|(_ & (x & Hx) & Hno)]]%steps_nodes_inv.
  - simpl in Hinit. by rewrite lookup_empty in Hinit.
  - exists c, t. split; [done|]. by apply trace_emitted.
  - exfalso.
    assert (∃ c t, emitted env paths (AddNode k c t)) as (c & t & Hin).
    { destruct Hx as [Hx|Hx]; apply trace_emitted, emitted_edge_endpoints in Hx;
        naive_solver. }
    by apply trace_emitted, Hno in Hin.
Qed.

Lemma built_function_code k code :
  function_codes (steps initial (trace env paths)) !! k = Some code →
  emitted env paths (SetFunctionCode k code).
Proof.
  rewrite steps_function_codes.
  intros [Hinit|Hin]%write_all_inv;
    [simpl in Hinit; by rewrite lookup_empty in Hinit|].
  by apply trace_emitted, function_code_writes_elem.
Qed.

Lemma built_class_code k code :
  class_codes (steps initial (trace env paths)) !! k = Some code →
  emitted env paths (SetClassCode k code).
Proof.
  rewrite steps_class_codes.
  intros [Hinit|Hin]%write_all_inv;
    [simpl in Hinit; by rewrite lookup_empty in Hinit|].
  by apply trace_emitted, class_code_writes_elem.
Qed.

(** A snippet comes from an assignment to one of the two dictionaries. *)
Lemma built_code_inv k code :
  codes !! k = Some code →
  emitted env paths (SetClassCode k code)
  ∨ emitted env paths (SetFunctionCode k code).
Proof.
  apply build_import_graph_Ok in Hbuild as (_ & _ & _ & ->).
  intros [?|[_ ?]]%lookup_union_Some_raw.
  - left. by apply built_class_code.
  - right. by apply built_function_code.
Qed.

Lemma built_code_present k :
  (∃ code, emitted env paths (SetFunctionCode k code)
           ∨ emitted env paths (SetClassCode k code)) →
  is_Some (codes !! k).
Proof.
  apply build_import_graph_Ok in Hbuild as (_ & _ & _ & ->).
  intros (code & Hin). apply lookup_union_is_Some.
  rewrite steps_function_codes, steps_class_codes, !write_all_is_Some.
  destruct Hin as [Hin|Hin]; apply trace_emitted in Hin.
  - right. right. exists code. by apply function_code_writes_elem.
  - left. right. exists code. by apply class_code_writes_elem.
Qed.

(** When every assignment under [k] stores the same text, and no class
    snippet goes under [k], that text is the snippet of [k]. *)
Lemma built_function_code_uniform k code :
  emitted env paths (SetFunctionCode k code) →
  (∀ code', emitted env paths (SetFunctionCode k code') → code' = code) →
  (∀ code', ¬ emitted env paths (SetClassCode k code')) →
  codes !! k = Some code.
Proof.
  apply build_import_graph_Ok in Hbuild as (_ & _ & _ & ->).
  intros Hin Hsame Hnoclass. apply lookup_union_Some_raw. right. split.
  - rewrite steps_class_codes, write_all_untouched; [done|].
    intros code' ?%class_code_writes_elem%trace_emitted. by eapply Hnoclass.
  - rewrite steps_function_codes. apply write_all_same.
    + by apply function_code_writes_elem, trace_emitted.
    + intros code' ?%function_code_writes_elem%trace_emitted. by apply Hsame.
Qed.

Lemma built_file_nodes_values v :
  v ∈ values fn → emitted env paths (AddNode v "blue" "file").
Proof.
  apply build_import_graph_Ok in Hbuild as (_ & _ & -> & _).
  intros [Hinit|(k & Hin)]%steps_file_nodes_values;
    [by apply elem_of_nil in Hinit|].
  apply trace_emitted in Hin.
  inversion Hin as [p tree o' Hp Hparse Ho
                   |p tree name args body o' Hp Hparse Hsub Ho
                   |p tree name args body o' Hp Hparse Hsub Ho
                   |p tree C cbases cbody m margs mbody o' Hp Hparse Hsub Hm Ho
                   |p tree X o' Hp Hparse HX Ho]; subst o'; in_list Ho.
  eapply emitted_file; [done..|]. by left.
Qed.

Lemma built_file_nodes_keys p : p ∈ keys fn ↔ p ∈ paths.
Proof.
  apply build_import_graph_Ok in Hbuild as (Hall & _ & -> & _).
  rewrite steps_file_nodes_keys. split.
  - intros [Hinit|(v & Hin)]; [by apply elem_of_nil in Hinit|].
    apply trace_emitted in Hin.
    inversion Hin as [p' tree o' Hp Hparse Ho
                     |p' tree name args body o' Hp Hparse Hsub Ho
                     |p' tree name args body o' Hp Hparse Hsub Ho
                     |p' tree C cbases cbody m margs mbody o' Hp Hparse Hsub Hm Ho
                     |p' tree X o' Hp Hparse HX Ho]; subst o'; in_list Ho.
    done.
  - intros Hp. right. exists p. apply trace_emitted.
    destruct (Hall p Hp) as [tree Hparse].
    eapply emitted_file; [done..|]. right. by left.
Qed.

End BuiltGraph.

(** * The claims *)

(** Runs a sample build: the walk of a sample reaches files that all parse. *)
Ltac sample_build Hbuild :=
  let e := fresh "e" in let p := fresh "p" in
  let Hp := fresh "Hp" in let He := fresh "He" in
  destruct (build_import_graph _ _) as [[[Gr fn] codes]|e] eqn:Hbuild;
  [| exfalso; apply build_import_graph_Raise in Hbuild as (p & Hp & He);
     vm_compute in Hp;
     repeat (apply elem_of_cons in Hp as [->|Hp]; [by vm_compute in He|]);
     by apply elem_of_nil in Hp ].

(** ** C3: the import references of a file *)

(** What [parse_imports] stores under a key: the set of the one imported
    name, under that name alone or after the module and a dot. *)
Definition import_entry (k : string) (s : gset string) : Prop :=
  ∃ name, s = {[ name ]} ∧ (k = name ∨ ∃ m, m ≠ "" ∧ k = m +:+ "." +:+ name).

Lemma fold_dict_set_entries {A : Type} (f : A → string) (g : A → gset string)
    (l : list A) (d : dict (gset string)) :
  (∀ k s, (k, s) ∈ d → import_entry k s) →
  (∀ a, a ∈ l → import_entry (f a) (g a)) →
  ∀ k s, (k, s) ∈ fold_left (λ d a, dict_set (f a) (g a) d) l d →
         import_entry k s.
Proof.
  revert d. induction l as [|a l IH]; intros d Hd Hl; simpl; [done|].
  apply IH.
  - intros k s [[= -> ->]|?]%dict_set_elem; [apply Hl; by left | by apply Hd].
  - intros b Hb. apply Hl. by right.
Qed.

Lemma parse_imports_node_entries (d : dict (gset string)) (n : node) :
  (∀ k s, (k, s) ∈ d → import_entry k s) →
  ∀ k s, (k, s) ∈ parse_imports_node d n → import_entry k s.
Proof.
  intros Hd. destruct n as [| | | |names|m names lvl|]; simpl; try done.
  - apply fold_dict_set_entries; [done|].
    intros a _. exists (alias_name a). split; [done | by left].
  - apply (fold_dict_set_entries
             (λ a, if bool_decide (default "" m = "") then alias_name a
                   else default "" m +:+ "." +:+ alias_name a)
             (λ a, {[ alias_name a ]})); [done|].
    intros a _. exists (alias_name a). split; [done|].
    case_bool_decide; [by left|]. right. by exists (default "" m).
Qed.

Lemma imports_of_entries (tree : node) (k : string) (s : gset string) :
  (k, s) ∈ imports_of tree → import_entry k s.
Proof.
  unfold imports_of.
  assert (∀ l d, (∀ k s, (k, s) ∈ d → import_entry k s) →
            ∀ k s, (k, s) ∈ fold_left parse_imports_node l d → import_entry k s)
    as Hfold.
  { induction l as [|n l IH]; intros d Hd; simpl; [done|].
    apply IH. by apply parse_imports_node_entries. }
  apply Hfold. by intros ? ? ?%elem_of_nil.
Qed.

(** C3.  For a file that parses, [parse_imports] returns a dictionary whose
    keys are exactly the flat identifiers of the import statements found
    anywhere in the tree, at whatever depth: [MODULE.NAME] for
    [from MODULE import NAME], [NAME] alone when the module part is empty,
    and [NAME] for [import NAME].  No key is listed twice, and each key maps
    to the set holding the one imported name. *)
Theorem C3_parse_imports_flat_identifiers
    (env : Env) (file_path : string) (tree : node) :
  parse_file env file_path = Ok tree →
  ∃ imports,
    parse_imports env file_path = Ok imports
    ∧ NoDup (keys imports)
    ∧ (∀ X, X ∈ keys imports ↔
            ∃ n, subnode n tree ∧ X ∈ spec_flat_identifiers n)
    ∧ (∀ X s, (X, s) ∈ imports →
              ∃ name, s = {[ name ]}
                ∧ (X = name ∨ ∃ m, m ≠ "" ∧ X = m +:+ "." +:+ name)).
Proof.
  intros Hparse. exists (imports_of tree). split_and!.
  - by rewrite parse_imports_eq, Hparse.
  - apply imports_of_NoDup.
  - apply imports_of_keys.
  - apply imports_of_entries.
Qed.

(** In [late.py], [from os import path as p] sits inside a function: its
    key is [os.path], and neither [path] nor [p] is a key. *)
Lemma C3_witness :
  ∃ imports,
    parse_imports Samples.late "proj/late.py" = Ok imports
    ∧ NoDup (keys imports)
    ∧ "os" ∈ keys imports ∧ "os.path" ∈ keys imports ∧ "util" ∈ keys imports
    ∧ "path" ∉ keys imports ∧ "p" ∉ keys imports.
Proof.
  destruct (C3_parse_imports_flat_identifiers Samples.late "proj/late.py"
              Samples.late_py eq_refl)
    as (imports & Himports & Hnodup & Hkeys & Hvalues).
  assert (subnode (FunctionDef "load" ""
                     [ ImportFrom (Some "os") [Alias "path" (Some "p")] 0;
                       ImportFrom None [Alias "util" None] 1 ])
                  Samples.late_py) as Hload.
  { eapply subnode_child; [|constructor]. right. by left. }
  exists imports. split_and!; [done..| | | | |].
  - apply Hkeys. exists (Import [Alias "os" None]). split; [|by left].
    eapply subnode_child; [|constructor]. by left.
  - apply Hkeys. exists (ImportFrom (Some "os") [Alias "path" (Some "p")] 0).
    split; [|by left]. eapply subnode_down; [done|]. by left.
  - apply Hkeys. exists (ImportFrom None [Alias "util" None] 1).
    split; [|by left]. eapply subnode_down; [done|]. right. by left.
  - injection Himports as <-. apply (bool_decide_unpack _). by vm_compute.
  - injection Himports as <-. apply (bool_decide_unpack _). by vm_compute.
Defined.

(** ** C9: inserting a node or an edge again *)

Lemma filter_ext_in {A : Type} (P Q : A → Prop)
    `{!∀ x, Decision (P x)} `{!∀ x, Decision (Q x)} (l : list A) :
  (∀ x, x ∈ l → P x ↔ Q x) → filter P l = filter Q l.
Proof.
  induction l as [|x l IH]; intros Hext; [done|].
  rewrite !filter_cons, IH by (intros y ?; apply Hext; by right).
  destruct (decide (P x)) as [HP|HP], (decide (Q x)) as [HQ|HQ]; try done.
  - exfalso. apply HQ, Hext; [by left | done].
  - exfalso. apply HP, Hext; [by left | done].
Qed.

Lemma count_NoDup {A : Type} `{EqDecision A} (l : list A) (x : A) :
  NoDup l → x ∈ l → length (filter (λ y, y = x) l) = 1.
Proof.
  induction 1 as [|y l Hy Hl IH]; [by intros ?%elem_of_nil|].
  rewrite filter_cons. intros [->|Hx]%elem_of_cons.
  - rewrite decide_True by done. simpl. f_equal.
    destruct (filter (λ z, z = y) l) as [|z l'] eqn:Hf; [done|].
    assert (z ∈ filter (λ z, z = y) l) as [-> ?]%list_elem_of_filter
      by (rewrite Hf; left).
    done.
  - rewrite decide_False by (intros ->; done). by apply IH.
Qed.

Lemma node_list_count (G : DiGraph) (k : string) :
  is_Some (nodes G !! k) → length (filter (λ y, y = k) (node_list G)) = 1.
Proof.
  intros [a Ha]. apply count_NoDup.
  - apply NoDup_fst_map_to_list.
  - apply list_elem_of_fmap. exists (k, a). split; [done|].
    by apply elem_of_map_to_list.
Qed.

Lemma edge_list_count (G : DiGraph) (e : string * string) :
  e ∈ edges G → length (filter (λ y, y = e) (edge_list G)) = 1.
Proof.
  intros He. unfold edge_list.
  apply count_NoDup; [apply NoDup_elements | by apply elem_of_elements].
Qed.

Lemma add_node_id (G : DiGraph) (n c t : string) :
  nodes G !! n = Some (Attrs (Some c) (Some t)) → add_node n c t G = G.
Proof. intros Hn. destruct G. unfold add_node. simpl in *. by rewrite insert_id. Qed.

Lemma ensure_node_id (m : gmap string node_attrs) (n : string) :
  is_Some (m !! n) → ensure_node n m = m.
Proof. intros [a Ha]. unfold ensure_node. by rewrite Ha. Qed.

Lemma add_edge_id (G : DiGraph) (u v : string) :
  is_Some (nodes G !! u) → is_Some (nodes G !! v) → (u, v) ∈ edges G →
  add_edge u v G = G.
Proof.
  intros Hu Hv He. destruct G as [ns es]. unfold add_edge. simpl in *.
  rewrite (ensure_node_id ns u Hu), (ensure_node_id ns v Hv). f_equal.
  apply leibniz_equiv. set_solver.
Qed.

Lemma add_node_twice (G : DiGraph) (n c t : string) :
  add_node n c t (add_node n c t G) = add_node n c t G.
Proof. apply add_node_id. simpl. apply lookup_insert_eq. Qed.

Lemma add_edge_twice (G : DiGraph) (u v : string) :
  add_edge u v (add_edge u v G) = add_edge u v G.
Proof.
  apply add_edge_id; simpl.
  - destruct (ensure_node_is_Some (nodes G) u) as [a Ha].
    exists a. by apply ensure_node_keeps.
  - apply ensure_node_is_Some.
  - set_solver.
Qed.

(** An import found in a file of a completed run. *)
Lemma built_import (env : Env) (directory : string)
    (Gr : DiGraph) (fn : dict string) (codes : gmap string string)
    (A X : string) (imports : dict (gset string)) :
  build_import_graph env directory = Ok (Gr, fn, codes) →
  A ∈ py_paths (os_walk env directory) →
  parse_imports env A = Ok imports → X ∈ keys imports →
  emitted env (py_paths (os_walk env directory)) (AddNode X "yellow" "module")
  ∧ emitted env (py_paths (os_walk env directory)) (AddEdge A X)
  ∧ is_Some (nodes Gr !! X) ∧ is_Some (nodes Gr !! A) ∧ (A, X) ∈ edges Gr.
Proof.
  intros Hbuild HA Himports HX. rewrite parse_imports_eq in Himports.
  destruct (parse_file env A) as [tree|] eqn:Hparse; [|done].
  injection Himports as <-.
  assert (emitted env (py_paths (os_walk env directory)) (AddNode X "yellow" "module"))
    as Hnode by (eapply emitted_module; [done..|]; by left).
  assert (emitted env (py_paths (os_walk env directory)) (AddEdge A X))
    as Hedge by (eapply emitted_module; [done..|]; right; by left).
  split_and!; [done..| | |].
  - by eapply built_node_present.
  - eapply built_node_present; [done|]. eapply emitted_file; [done..|]. by left.
  - by eapply built_edge.
Qed.

(** C9.  Inserting a node or an edge again changes nothing: [add_node] and
    [add_edge] are idempotent, and once an identity is a node with the same
    colour and type (an edge is in the graph) the call leaves the graph as
    it is.  So when a file imports the flat identifier [X], however many of
    its import statements name [X], the dictionary of [parse_imports] lists
    [X] once, and the returned graph holds exactly one node of identity [X]
    and exactly one edge from that file's node to it. *)
Theorem C9_idempotent_insertion
    (env : Env) (directory : string)
    (Gr : DiGraph) (fn : dict string) (codes : gmap string string)
    (A X : string) (imports : dict (gset string)) :
  build_import_graph env directory = Ok (Gr, fn, codes) →
  A ∈ py_paths (os_walk env directory) →
  parse_imports env A = Ok imports → X ∈ keys imports →
  NoDup (keys imports)
  ∧ length (filter (λ k, k = X) (node_list Gr)) = 1
  ∧ length (filter (λ e, e = (A, X)) (edge_list Gr)) = 1
  ∧ (∀ (G : DiGraph) n c t, add_node n c t (add_node n c t G) = add_node n c t G)
  ∧ (∀ (G : DiGraph) u v, add_edge u v (add_edge u v G) = add_edge u v G)
  ∧ (∀ (G : DiGraph) n c t,
       nodes G !! n = Some (Attrs (Some c) (Some t)) → add_node n c t G = G)
  ∧ add_edge A X Gr = Gr.
Proof.
  intros Hbuild HA Himports HX.
  destruct (built_import _ _ _ _ _ _ _ _ Hbuild HA Himports HX)
    as (_ & _ & HnX & HnA & He).
  split_and!.
  - rewrite parse_imports_eq in Himports.
    destruct (parse_file env A) as [tree|]; [|done].
    injection Himports as <-. apply imports_of_NoDup.
  - by apply node_list_count.
  - by apply edge_list_count.
  - apply add_node_twice.
  - apply add_edge_twice.
  - apply add_node_id.
  - by apply add_edge_id.
Qed.

Lemma C9_witness :
  match build_import_graph Samples.scenario "proj" with
  | Ok (Gr, _, _) =>
      length (filter (λ k, k = "os") (node_list Gr)) = 1
      ∧ length (filter (λ e, e = ("proj/a.py", "os")) (edge_list Gr)) = 1
      ∧ add_edge "proj/a.py" "os" Gr = Gr
  | Raise _ => False
  end.
Proof.
  destruct (build_import_graph Samples.scenario "proj")
    as [[[Gr fn] codes]|e] eqn:Hbuild; [|by vm_compute in Hbuild].
  destruct (C9_idempotent_insertion Samples.scenario "proj" Gr fn codes
              "proj/a.py" "os" (imports_of Samples.a_py) Hbuild)
    as (_ & H2 & H3 & _ & _ & _ & H4); [by left | reflexivity | by left |].
  done.
Defined.

(** ** C6: resolving a preview *)

Lemma emitted_function_node_code (env : Env) (paths : list string) (k : string) :
  emitted env paths (AddNode k "green" "function") →
  ∃ code, emitted env paths (SetFunctionCode k code).
Proof.
  inversion 1 as [p tree o' Hp Hparse Ho
                 |p tree name args body o' Hp Hparse Hsub Ho
                 |p tree name args body o' Hp Hparse Hsub Ho
                 |p tree C cbases cbody m margs mbody o' Hp Hparse Hsub Hm Ho
                 |p tree X o' Hp Hparse HX Ho]; subst o'; in_list Ho.
  - eexists. eapply emitted_function; [done..|]. right; right; by left.
  - eexists. eapply emitted_method; [done..|]. right; right; by left.
Qed.

Lemma emitted_class_node_code (env : Env) (paths : list string) (k : string) :
  emitted env paths (AddNode k "red" "class") →
  ∃ code, emitted env paths (SetClassCode k code).
Proof.
  inversion 1 as [p tree o' Hp Hparse Ho
                 |p tree name args body o' Hp Hparse Hsub Ho
                 |p tree name args body o' Hp Hparse Hsub Ho
                 |p tree C cbases cbody m margs mbody o' Hp Hparse Hsub Hm Ho
                 |p tree X o' Hp Hparse HX Ho]; subst o'; in_list Ho.
  eexists. eapply emitted_class; [done..|]. right; right; by left.
Qed.

(** The type an [add_node] of the run gives decides its colour. *)
Lemma emitted_AddNode_type (env : Env) (paths : list string) (k c t : string) :
  emitted env paths (AddNode k c t) →
  (t = "file" ∧ c = "blue") ∨ (t = "function" ∧ c = "green")
  ∨ (t = "class" ∧ c = "red") ∨ (t = "module" ∧ c = "yellow").
Proof.
  inversion 1 as [p tree o' Hp Hparse Ho
                 |p tree name args body o' Hp Hparse Hsub Ho
                 |p tree name args body o' Hp Hparse Hsub Ho
                 |p tree C cbases cbody m margs mbody o' Hp Hparse Hsub Hm Ho
                 |p tree X o' Hp Hparse HX Ho]; subst o'; in_list Ho;
    naive_solver.
Qed.

(** C6.  In the graph a run returns, every node of type function or class
    has a snippet stored under its identity, and the click handler shows
    that snippet (the sentinel [Code not available] takes its place only
    when the stored text is the empty string).  For any snippet dictionary
    the handler is total: for a function or class it shows the stored text
    or, when the identity is absent, [Code not available]; for a module it
    shows [No preview available for module: ] followed by the identity. *)
Theorem C6_preview_resolution
    (env : Env) (directory : string)
    (Gr : DiGraph) (fn : dict string) (codes : gmap string string) :
  build_import_graph env directory = Ok (Gr, fn, codes) →
  (∀ k a t, nodes Gr !! k = Some a → type a = Some t →
     t = "function" ∨ t = "class" →
     ∃ code, codes !! k = Some code
       ∧ plotly_click codes k t =
           ShowText (if bool_decide (code = "") then "Code not available"
                     else code))
  ∧ (∀ (snippets : gmap string string) k t,
       t = "function" ∨ t = "class" →
       snippets !! k = None →
       plotly_click snippets k t = ShowText "Code not available")
  ∧ (∀ (snippets : gmap string string) k t code,
       t = "function" ∨ t = "class" →
       snippets !! k = Some code → code ≠ "" →
       plotly_click snippets k t = ShowText code)
  ∧ (∀ (snippets : gmap string string) k,
       plotly_click snippets k "module" =
         ShowText ("No preview available for module: " +:+ k)).
Proof.
  intros Hbuild. split_and!.
  - intros k a t Ha Ht Hkind.
    destruct (built_node_inv _ _ _ _ _ Hbuild k a Ha) as (c & t' & -> & Hin).
    simpl in Ht. injection Ht as ->.
    assert (is_Some (codes !! k)) as [code Hcode].
    { eapply built_code_present; [done|].
      destruct (emitted_AddNode_type _ _ _ _ _ Hin)
        as [[-> ->]|[[-> ->]|[[-> ->]|[-> ->]]]]; try naive_solver.
      - destruct (emitted_function_node_code _ _ _ Hin) as [code ?]. by eauto.
      - destruct (emitted_class_node_code _ _ _ Hin) as [code ?]. by eauto. }
    exists code. split; [done|]. unfold plotly_click. rewrite Hcode.
    destruct Hkind as [-> | ->]; simpl; by case_bool_decide.
  - intros snippets k t [-> | ->] Hnone; unfold plotly_click; by rewrite Hnone.
  - intros snippets k t code [-> | ->] Hcode Hne; unfold plotly_click;
      rewrite Hcode; simpl; by rewrite bool_decide_eq_false_2.
  - done.
Qed.

Lemma C6_witness :
  match build_import_graph Samples.scenario "proj" with
  | Ok (Gr, _, codes) =>
      ∃ code, codes !! "proj/a.py::foo" = Some code
        ∧ plotly_click codes "proj/a.py::foo" "function" =
            ShowText (if bool_decide (code = "") then "Code not available"
                      else code)
  | Raise _ => False
  end.
Proof.
  destruct (build_import_graph Samples.scenario "proj")
    as [[[Gr fn] codes]|e] eqn:Hbuild; [|by vm_compute in Hbuild].
  destruct (C6_preview_resolution Samples.scenario "proj" Gr fn codes Hbuild)
    as (H & _).
  apply (H "proj/a.py::foo" function_attrs "function"); [|done|by left].
  vm_compute in Hbuild. by injection Hbuild as <- _ _.
Defined.

(** ** C8: a root directory that cannot be listed *)





(** ** Reading a step back to the declaration it belongs to *)

Section EmittedInversion.
Context (env : Env) (paths : list string).
Implicit Types (k u v c t code : string).

Lemma emitted_AddNode_inv k c t :
  emitted env paths (AddNode k c t) →
  (∃ p tree, p ∈ paths ∧ parse_file env p = Ok tree
     ∧ k = p ∧ c = "blue" ∧ t = "file")
  ∨ (∃ p tree name args body, p ∈ paths ∧ parse_file env p = Ok tree
       ∧ subnode (FunctionDef name args body) tree
       ∧ k = p ∷ name ∧ c = "green" ∧ t = "function")
  ∨ (∃ p tree name args body, p ∈ paths ∧ parse_file env p = Ok tree
       ∧ subnode (ClassDef name args body) tree
       ∧ k = p ∷ name ∧ c = "red" ∧ t = "class")
  ∨ (∃ p tree C cbases cbody m margs mbody, p ∈ paths ∧ parse_file env p = Ok tree
       ∧ subnode (ClassDef C cbases cbody) tree ∧ FunctionDef m margs mbody ∈ cbody
       ∧ k = p ∷ C ∷ m ∧ c = "green" ∧ t = "function")
  ∨ (∃ p tree, p ∈ paths ∧ parse_file env p = Ok tree
       ∧ k ∈ keys (imports_of tree) ∧ c = "yellow" ∧ t = "module").
Proof.
  inversion 1 as [p tree o' Hp Hparse Ho
                 |p tree name args body o' Hp Hparse Hsub Ho
                 |p tree name args body o' Hp Hparse Hsub Ho
                 |p tree C cbases cbody m margs mbody o' Hp Hparse Hsub Hm Ho
                 |p tree X o' Hp Hparse HX Ho]; subst o'; in_list Ho.
  - left. by eexists _, _.
  - right; left. by eexists _, _, _, _, _.
  - right; right; left. by eexists _, _, _, _, _.
  - right; right; right; left. by eexists _, _, _, _, _, _, _, _.
  - right; right; right; right. by eexists _, _.
Qed.

Lemma emitted_AddEdge_inv u v :
  emitted env paths (AddEdge u v) →
  (∃ p tree name args body, p ∈ paths ∧ parse_file env p = Ok tree
     ∧ (subnode (FunctionDef name args body) tree ∨ subnode (ClassDef name args body) tree)
     ∧ u = p ∧ v = p ∷ name)
  ∨ (∃ p tree C cbases cbody m margs mbody, p ∈ paths ∧ parse_file env p = Ok tree
       ∧ subnode (ClassDef C cbases cbody) tree ∧ FunctionDef m margs mbody ∈ cbody
       ∧ u = p ∷ C ∧ v = p ∷ C ∷ m)
  ∨ (∃ p tree, p ∈ paths ∧ parse_file env p = Ok tree
       ∧ v ∈ keys (imports_of tree) ∧ u = p).
Proof.
  inversion 1 as [p tree o' Hp Hparse Ho
                 |p tree name args body o' Hp Hparse Hsub Ho
                 |p tree name args body o' Hp Hparse Hsub Ho
                 |p tree C cbases cbody m margs mbody o' Hp Hparse Hsub Hm Ho
                 |p tree X o' Hp Hparse HX Ho]; subst o'; in_list Ho.
  - left. eexists _, _, _, _, _. split_and!; [done..|by left|done|done].
  - left. eexists _, _, _, _, _. split_and!; [done..|by right|done|done].
  - right; left. by eexists _, _, _, _, _, _, _, _.
  - right; right. by eexists _, _.
Qed.

Lemma emitted_SetFunctionCode_inv k code :
  emitted env paths (SetFunctionCode k code) →
  (∃ p tree name args body, p ∈ paths ∧ parse_file env p = Ok tree
     ∧ subnode (FunctionDef name args body) tree
     ∧ k = p ∷ name ∧ code = ast_unparse env (FunctionDef name args body))
  ∨ (∃ p tree C cbases cbody m margs mbody, p ∈ paths ∧ parse_file env p = Ok tree
       ∧ subnode (ClassDef C cbases cbody) tree ∧ FunctionDef m margs mbody ∈ cbody
       ∧ k = p ∷ C ∷ m ∧ code = ast_unparse env (FunctionDef m margs mbody)).
Proof.
  inversion 1 as [p tree o' Hp Hparse Ho
                 |p tree name args body o' Hp Hparse Hsub Ho
                 |p tree name args body o' Hp Hparse Hsub Ho
                 |p tree C cbases cbody m margs mbody o' Hp Hparse Hsub Hm Ho
                 |p tree X o' Hp Hparse HX Ho]; subst o'; in_list Ho.
  - left. by eexists _, _, _, _, _.
  - right. by eexists _, _, _, _, _, _, _, _.
Qed.

Lemma emitted_SetClassCode_inv k code :
  emitted env paths (SetClassCode k code) →
  ∃ p tree name args body, p ∈ paths ∧ parse_file env p = Ok tree
    ∧ subnode (ClassDef name args body) tree
    ∧ k = p ∷ name ∧ code = ast_unparse env (ClassDef name args body).
Proof.
  inversion 1 as [p tree o' Hp Hparse Ho
                 |p tree name args body o' Hp Hparse Hsub Ho
                 |p tree name args body o' Hp Hparse Hsub Ho
                 |p tree C cbases cbody m margs mbody o' Hp Hparse Hsub Hm Ho
                 |p tree X o' Hp Hparse HX Ho]; subst o'; in_list Ho.
  by eexists _, _, _, _, _.
Qed.

End EmittedInversion.

(** ** Node kinds in the graph of a well-formed run *)

Section WellFormedBuilt.
Context (env : Env) (directory : string).
Context (Gr : DiGraph) (fn : dict string) (codes : gmap string string).
Hypothesis Hwf : wf_run env directory = true.
Hypothesis Hbuild : build_import_graph env directory = Ok (Gr, fn, codes).
Let paths := py_paths (os_walk env directory).
Implicit Types (k u v p name C m : string) (tree : node).

Lemma wf_function_name p tree name args body :
  p ∈ paths → parse_file env p = Ok tree →
  subnode (FunctionDef name args body) tree → identifier name = true.
Proof. intros Hp Hparse Hsub. by apply (wf_run_node env directory Hwf p tree _ Hp Hparse Hsub). Qed.

Lemma wf_class_name p tree name args body :
  p ∈ paths → parse_file env p = Ok tree →
  subnode (ClassDef name args body) tree → identifier name = true.
Proof. intros Hp Hparse Hsub. by apply (wf_run_node env directory Hwf p tree _ Hp Hparse Hsub). Qed.

Lemma wf_method_name p tree C cbases cbody m margs mbody :
  p ∈ paths → parse_file env p = Ok tree →
  subnode (ClassDef C cbases cbody) tree → FunctionDef m margs mbody ∈ cbody →
  identifier m = true.
Proof.
  intros Hp Hparse Hsub Hm.
  apply (wf_function_name p tree m margs mbody Hp Hparse). by eapply subnode_down.
Qed.

(** Two declarations with one identity sit in the same file and have the
    same name. *)
Lemma wf_sep_inj p q n n' :
  identifier n = true → identifier n' = true →
  p ∷ n = q ∷ n' → p = q ∧ n = n'.
Proof.
  intros (Hn & _)%identifier_spec (Hn' & _)%identifier_spec. by apply sep_inj.
Qed.

Lemma wf_path_not_decl p u n : p ∈ paths → identifier n = true → p ≠ u ∷ n.
Proof.
  intros Hp Hn ->. eapply file_not_decl.
  - by apply (wf_run_path env directory Hwf).
  - by apply decl_shape_intro.
Qed.

Lemma built_file_attrs p : p ∈ paths → nodes Gr !! p = Some file_attrs.
Proof.
  intros Hp. destruct (built_parsed _ _ _ _ _ Hbuild p Hp) as [tree Hparse].
  eapply built_node_uniform; [done| |].
  - eapply emitted_file; [done..|]. by left.
  - intros c' t' [(-> & -> & _)|[(_ & Hd)|(_ & _ & Hm)]]
      %(emitted_AddNode_shape env directory Hwf); [done|exfalso..].
    + eapply file_not_decl; [|done]. by apply (wf_run_path env directory Hwf).
    + eapply file_not_module; [|done]. by apply (wf_run_path env directory Hwf).
Qed.

Lemma built_module_attrs p tree X :
  p ∈ paths → parse_file env p = Ok tree → X ∈ keys (imports_of tree) →
  nodes Gr !! X = Some module_attrs.
Proof.
  intros Hp Hparse HX.
  pose proof (wf_run_import env directory Hwf p tree X Hp Hparse HX) as Hshape.
  eapply built_node_uniform; [done| |].
  - eapply emitted_module; [done..|]. by left.
  - intros c' t' [(_ & _ & Hf)|[(_ & Hd)|(-> & -> & _)]]
      %(emitted_AddNode_shape env directory Hwf); [exfalso..|done].
    + by eapply file_not_module.
    + by eapply decl_not_module.
Qed.



End WellFormedBuilt.

Section WellFormedSnippets.
Context (env : Env) (directory : string).
Context (Gr : DiGraph) (fn : dict string) (codes : gmap string string).
Hypothesis Hwf : wf_run env directory = true.
Hypothesis Hbuild : build_import_graph env directory = Ok (Gr, fn, codes).
Let paths := py_paths (os_walk env directory).
Implicit Types (k u v p name C m : string) (tree : node).

(** The snippet under [p ∷ m] is that of the function [m] when no other
    function or class of the file is called [m]. *)
Lemma built_function_snippet p tree m margs mbody :
  p ∈ paths → parse_file env p = Ok tree →
  subnode (FunctionDef m margs mbody) tree →
  (∀ n, subnode n tree →
        (∃ a b, n = FunctionDef m a b ∨ n = ClassDef m a b) → n = FunctionDef m margs mbody) →
  codes !! (p ∷ m) = Some (ast_unparse env (FunctionDef m margs mbody)).
Proof.
  intros Hp Hparse Hsub Hunique.
  pose proof (wf_function_name env directory Hwf p tree m margs mbody Hp Hparse Hsub)
    as Hname.
  eapply built_function_code_uniform; [done| | |].
  - eapply emitted_function; [done..|]. right; right; by left.
  - intros code' Hin.
    destruct (emitted_SetFunctionCode_inv _ _ _ _ Hin)
      as [(q & tq & n' & a' & b' & Hq & Hpq & Hs & Hk & ->)
         |(q & tq & C & cba & cb & m' & ma & mb & Hq & Hpq & Hs & Hm & Hk & ->)].
    + apply wf_sep_inj in Hk as [<- <-];
        [|done|by eapply (wf_function_name env directory Hwf)].
      rewrite Hparse in Hpq. injection Hpq as <-.
      f_equal. apply Hunique; [done|]. by eauto.
    + exfalso. apply wf_sep_inj in Hk as [Hk _];
        [|done|by eapply (wf_method_name env directory Hwf)].
      eapply (wf_path_not_decl env directory Hwf p q C); [done| |done].
      by eapply (wf_class_name env directory Hwf).
  - intros code' Hin.
    destruct (emitted_SetClassCode_inv _ _ _ _ Hin)
      as (q & tq & n' & a' & b' & Hq & Hpq & Hs & Hk & ->).
    apply wf_sep_inj in Hk as [<- <-];
      [|done|by eapply (wf_class_name env directory Hwf)].
    rewrite Hparse in Hpq. injection Hpq as <-.
    assert (ClassDef m a' b' = FunctionDef m margs mbody) as Heq; [|done].
    apply Hunique; [done|]. by eauto.
Qed.







End WellFormedSnippets.

(** ** C10: every function definition met by the walk hangs off the file *)

(** A declaration of a file of a completed run: its node, its edge and its
    snippet are there. *)
Lemma built_function (env : Env) (directory : string)
    (Gr : DiGraph) (fn : dict string) (codes : gmap string string)
    (p : string) (tree : node) (name args : string) (body : list node) :
  build_import_graph env directory = Ok (Gr, fn, codes) →
  p ∈ py_paths (os_walk env directory) → parse_file env p = Ok tree →
  subnode (FunctionDef name args body) tree →
  is_Some (nodes Gr !! (p ∷ name)) ∧ (p, p ∷ name) ∈ edges Gr
  ∧ is_Some (codes !! (p ∷ name)).
Proof.
  intros Hbuild Hp Hparse Hsub. split_and!.
  - eapply built_node_present; [done|]. eapply emitted_function; [done..|]. by left.
  - eapply built_edge; [done|]. eapply emitted_function; [done..|]. right; by left.
  - eapply built_code_present; [done|]. eexists. left.
    eapply emitted_function; [done..|]. right; right; by left.
Qed.

Lemma built_class (env : Env) (directory : string)
    (Gr : DiGraph) (fn : dict string) (codes : gmap string string)
    (p : string) (tree : node) (name args : string) (body : list node) :
  build_import_graph env directory = Ok (Gr, fn, codes) →
  p ∈ py_paths (os_walk env directory) → parse_file env p = Ok tree →
  subnode (ClassDef name args body) tree →
  is_Some (nodes Gr !! (p ∷ name)) ∧ (p, p ∷ name) ∈ edges Gr
  ∧ is_Some (codes !! (p ∷ name)).
Proof.
  intros Hbuild Hp Hparse Hsub. split_and!.
  - eapply built_node_present; [done|]. eapply emitted_class; [done..|]. by left.
  - eapply built_edge; [done|]. eapply emitted_class; [done..|]. right; by left.
  - eapply built_code_present; [done|]. eexists. right.
    eapply emitted_class; [done..|]. right; right; by left.
Qed.

Lemma built_method (env : Env) (directory : string)
    (Gr : DiGraph) (fn : dict string) (codes : gmap string string)
    (p : string) (tree : node) (C cbases : string) (cbody : list node)
    (m margs : string) (mbody : list node) :
  build_import_graph env directory = Ok (Gr, fn, codes) →
  p ∈ py_paths (os_walk env directory) → parse_file env p = Ok tree →
  subnode (ClassDef C cbases cbody) tree → FunctionDef m margs mbody ∈ cbody →
  is_Some (nodes Gr !! (p ∷ C ∷ m)) ∧ (p ∷ C, p ∷ C ∷ m) ∈ edges Gr
  ∧ is_Some (codes !! (p ∷ C ∷ m)).
Proof.
  intros Hbuild Hp Hparse Hsub Hm. split_and!.
  - eapply built_node_present; [done|]. eapply emitted_method; [done..|]. by left.
  - eapply built_edge; [done|]. eapply emitted_method; [done..|]. right; by left.
  - eapply built_code_present; [done|]. eexists. left.
    eapply emitted_method; [done..|]. right; right; by left.
Qed.





(** ** C1: a file that cannot be parsed *)




(** ** C4: one Module node for an identifier imported by two files *)

(** C4.  In a well-formed completed run, when two different files [A] and
    [B] both import the flat identifier [X], the graph has one node of
    identity [X], of type module and colour yellow, and the two different
    edges from the File nodes [A] and [B] to it. *)
Theorem C4_shared_module_node
    (env : Env) (directory : string)
    (Gr : DiGraph) (fn : dict string) (codes : gmap string string)
    (A B X : string) (importsA importsB : dict (gset string)) :
  wf_run env directory = true →
  build_import_graph env directory = Ok (Gr, fn, codes) →
  A ∈ py_paths (os_walk env directory) →
  B ∈ py_paths (os_walk env directory) →
  A ≠ B →
  parse_imports env A = Ok importsA → X ∈ keys importsA →
  parse_imports env B = Ok importsB → X ∈ keys importsB →
  nodes Gr !! X = Some module_attrs
  ∧ length (filter (λ k, k = X) (node_list Gr)) = 1
  ∧ nodes Gr !! A = Some file_attrs
  ∧ nodes Gr !! B = Some file_attrs
  ∧ (A, X) ∈ edges Gr ∧ (B, X) ∈ edges Gr ∧ (A, X) ≠ (B, X).
Proof.
  intros Hwf Hbuild HA HB Hne HiA HXA HiB HXB.
  destruct (built_import _ _ _ _ _ _ _ _ Hbuild HA HiA HXA)
    as (_ & _ & HnX & _ & HeA).
  destruct (built_import _ _ _ _ _ _ _ _ Hbuild HB HiB HXB)
    as (_ & _ & _ & _ & HeB).
  rewrite parse_imports_eq in HiA.
  destruct (parse_file env A) as [tree|] eqn:Hparse; [|done].
  injection HiA as <-.
  split_and!; [|by apply node_list_count| | |done|done|congruence].
  - by eapply (built_module_attrs _ _ _ _ _ Hwf Hbuild A tree).
  - by eapply (built_file_attrs _ _ _ _ _ Hwf Hbuild A).
  - by eapply (built_file_attrs _ _ _ _ _ Hwf Hbuild B).
Qed.

Lemma C4_witness :
  match build_import_graph Samples.shared "proj" with
  | Ok (Gr, _, _) =>
      nodes Gr !! "os" = Some module_attrs
      ∧ length (filter (λ k, k = "os") (node_list Gr)) = 1
      ∧ nodes Gr !! "proj/x.py" = Some file_attrs
      ∧ nodes Gr !! "proj/sub/y.py" = Some file_attrs
      ∧ ("proj/x.py", "os") ∈ edges Gr ∧ ("proj/sub/y.py", "os") ∈ edges Gr
      ∧ ("proj/x.py", "os") ≠ ("proj/sub/y.py", "os")
  | Raise _ => False
  end.
Proof.
  destruct (build_import_graph Samples.shared "proj")
    as [[[Gr fn] codes]|e] eqn:Hbuild; [|by vm_compute in Hbuild].
  apply (C4_shared_module_node Samples.shared "proj" Gr fn codes
           "proj/x.py" "proj/sub/y.py" "os"
           (imports_of Samples.x_py) (imports_of Samples.y_py)).
  - reflexivity.
  - exact Hbuild.
  - by left.
  - right. by left.
  - done.
  - reflexivity.
  - by left.
  - reflexivity.
  - by left.
Defined.

(** ** C2: the containment edges *)

(** What the graph of [Samples.nested] holds for the method [m] of class [C]
    and for the function [inner] nested in [outer]: nodes whose identity
    leaves the enclosing scope out and whose only incoming edge comes from
    the File node, and no node under the full scope chain of [inner]. *)
Lemma C2_counterexample :
  match build_import_graph Samples.nested "proj" with
  | Ok (Gr, _, _) =>
      nodes Gr !! "proj/shapes.py::C" = Some class_attrs
      ∧ nodes Gr !! "proj/shapes.py::m" = Some function_attrs
      ∧ filter (λ e, e.2 = "proj/shapes.py::m") (edge_list Gr)
        = [ ("proj/shapes.py", "proj/shapes.py::m") ]
      ∧ nodes Gr !! "proj/shapes.py::inner" = Some function_attrs
      ∧ filter (λ e, e.2 = "proj/shapes.py::inner") (edge_list Gr)
        = [ ("proj/shapes.py", "proj/shapes.py::inner") ]
      ∧ nodes Gr !! "proj/shapes.py::outer::inner" = None
  | Raise _ => False
  end.
Proof. vm_compute. split_and!; reflexivity. Qed.

Section Containment.
Context (env : Env) (directory : string).
Context (Gr : DiGraph) (fn : dict string) (codes : gmap string string).
Hypothesis Hwf : wf_run env directory = true.
Hypothesis Hbuild : build_import_graph env directory = Ok (Gr, fn, codes).
Let paths := py_paths (os_walk env directory).

(** An edge into [U ∷ n] starts at [U]. *)
Lemma built_parent_unique (U n u' : string) :
  identifier n = true → (u', U ∷ n) ∈ edges Gr → u' = U.
Proof.
  intros Hn He. eapply built_edge in He; [|done].
  destruct (emitted_AddEdge_inv _ _ _ _ He)
    as [(q & tq & n' & a' & b' & Hq & Hpq & Hs & -> & Hk)
       |[(q & tq & C & cba & cb & m & ma & mb & Hq & Hpq & Hs & Hm & -> & Hk)
       |(q & tq & Hq & Hpq & HX & ->)]].
  - apply wf_sep_inj in Hk as [-> _]; [done..|].
    destruct Hs; [by eapply (wf_function_name env directory Hwf)
                 | by eapply (wf_class_name env directory Hwf)].
  - apply wf_sep_inj in Hk as [-> _]; [done..|].
    by eapply (wf_method_name env directory Hwf).
  - exfalso. eapply decl_not_module; [by apply (decl_shape_intro U n)|].
    by eapply (wf_run_import env directory Hwf).
Qed.

End Containment.

(** C2, amended.  In the graph of a well-formed completed run every node of
    type function or class has exactly one incoming edge, and it is one of
    two kinds.  Either the node stands for a function or class definition
    the walk yields in a file [p], at whatever depth: then its identity is
    [p::name], the file path joined to the declaration's own name alone,
    and its edge comes from the File node [p].  Or it stands for a function
    [m] found directly in the body of a class [C] of [p]: then its identity
    is [p::C::m] and its edge comes from the node [p::C], which in turn has
    an edge from the File node [p]. *)
Theorem C2_containment_edges
    (env : Env) (directory : string)
    (Gr : DiGraph) (fn : dict string) (codes : gmap string string)
    (k : string) (a : node_attrs) :
  wf_run env directory = true →
  build_import_graph env directory = Ok (Gr, fn, codes) →
  nodes Gr !! k = Some a →
  type a = Some "function" ∨ type a = Some "class" →
  ∃ u,
    (u, k) ∈ edges Gr
    ∧ (∀ u', (u', k) ∈ edges Gr → u' = u)
    ∧ length (filter (λ e, e.2 = k) (edge_list Gr)) = 1
    ∧ ((∃ p tree name args body,
          p ∈ py_paths (os_walk env directory) ∧ parse_file env p = Ok tree
          ∧ (FunctionDef name args body ∈ ast_walk tree
             ∨ ClassDef name args body ∈ ast_walk tree)
          ∧ k = p ∷ name ∧ u = p
          ∧ nodes Gr !! p = Some file_attrs)
       ∨ (∃ p tree C cbases cbody m margs mbody,
            p ∈ py_paths (os_walk env directory) ∧ parse_file env p = Ok tree
            ∧ ClassDef C cbases cbody ∈ ast_walk tree ∧ FunctionDef m margs mbody ∈ cbody
            ∧ k = p ∷ C ∷ m ∧ u = p ∷ C
            ∧ (p, p ∷ C) ∈ edges Gr
            ∧ nodes Gr !! p = Some file_attrs)).
Proof.
  intros Hwf Hbuild Ha Hkind.
  assert (∀ U n, identifier n = true → k = U ∷ n → (U, k) ∈ edges Gr →
            (∀ u', (u', k) ∈ edges Gr → u' = U)
            ∧ length (filter (λ e, e.2 = k) (edge_list Gr)) = 1) as Hone.
  { intros U n Hn -> He.
    assert (∀ u', (u', U ∷ n) ∈ edges Gr → u' = U) as Huniq
      by (intros u'; by apply (built_parent_unique env directory Gr fn codes)).
    split; [done|].
    rewrite (filter_ext_in _ (λ e, e = (U, U ∷ n))).
    - by apply edge_list_count.
    - intros [u' v'] Hin. unfold edge_list in Hin.
      apply elem_of_elements in Hin. simpl. split; [|by intros [= -> ->]].
      intros ->. f_equal. by apply Huniq. }
  destruct (built_node_inv _ _ _ _ _ Hbuild k a Ha) as (c & t & -> & Hin).
  simpl in Hkind.
  destruct (emitted_AddNode_inv _ _ _ _ _ Hin)
    as [(p & tree & Hp & Hparse & Hk & -> & ->)
       |[(p & tree & name & args & body & Hp & Hparse & Hs & Hk & -> & ->)
       |[(p & tree & name & args & body & Hp & Hparse & Hs & Hk & -> & ->)
       |[(p & tree & C & cbases & cbody & m & margs & mbody & Hp & Hparse & Hs & Hm & Hk & -> & ->)
       |(p & tree & Hp & Hparse & HX & -> & ->)]]]];
    try (by destruct Hkind as [[=]|[=]]).
  - destruct (built_function _ _ _ _ _ _ _ _ _ _ Hbuild Hp Hparse Hs)
      as (_ & He & _).
    rewrite <- Hk in He.
    destruct (Hone p name) as [Huniq Hcount]; [|done..|].
    { by eapply (wf_function_name env directory Hwf). }
    exists p. split_and!; [done..|]. left. exists p, tree, name, args, body.
    split_and!; [done..|left; by apply ast_walk_elem|done|done|].
    by eapply (built_file_attrs _ _ _ _ _ Hwf Hbuild p).
  - destruct (built_class _ _ _ _ _ _ _ _ _ _ Hbuild Hp Hparse Hs)
      as (_ & He & _).
    rewrite <- Hk in He.
    destruct (Hone p name) as [Huniq Hcount]; [|done..|].
    { by eapply (wf_class_name env directory Hwf). }
    exists p. split_and!; [done..|]. left. exists p, tree, name, args, body.
    split_and!; [done..|right; by apply ast_walk_elem|done|done|].
    by eapply (built_file_attrs _ _ _ _ _ Hwf Hbuild p).
  - destruct (built_method _ _ _ _ _ _ _ _ _ _ _ _ _ Hbuild Hp Hparse Hs Hm)
      as (_ & He & _).
    destruct (built_class _ _ _ _ _ _ _ _ _ _ Hbuild Hp Hparse Hs)
      as (_ & HeC & _).
    rewrite <- Hk in He.
    destruct (Hone (p ∷ C) m) as [Huniq Hcount]; [|done..|].
    { by eapply (wf_method_name env directory Hwf). }
    exists (p ∷ C). split_and!; [done..|]. right.
    exists p, tree, C, cbases, cbody, m, margs, mbody.
    split_and!; [done..|by apply ast_walk_elem|done|done|done|done|].
    by eapply (built_file_attrs _ _ _ _ _ Hwf Hbuild p).
Qed.

Lemma C2_witness :
  match build_import_graph Samples.nested "proj" with
  | Ok (Gr, _, _) =>
      ∃ u, (u, "proj/shapes.py::C::m") ∈ edges Gr
           ∧ (∀ u', (u', "proj/shapes.py::C::m") ∈ edges Gr → u' = u)
           ∧ length (filter (λ e, e.2 = "proj/shapes.py::C::m") (edge_list Gr)) = 1
  | Raise _ => False
  end.
Proof.
  destruct (build_import_graph Samples.nested "proj")
    as [[[Gr fn] codes]|e] eqn:Hbuild; [|by vm_compute in Hbuild].
  destruct (C2_containment_edges Samples.nested "proj" Gr fn codes
              "proj/shapes.py::C::m" function_attrs)
    as (u & H1 & H2 & H3 & _).
  - reflexivity.
  - exact Hbuild.
  - vm_compute in Hbuild. by injection Hbuild as <- _ _.
  - by left.
  - by exists u.
Defined.

(** ** C5: marking files without outgoing edges *)

Definition mark (a : node_attrs) : node_attrs := Attrs (Some "red") (type a).

Section MarkDeadCode.
Implicit Types (G : DiGraph) (l : list string) (k f : string).

Lemma out_degree_zero G f :
  out_degree G f = Some 0 ↔ is_Some (nodes G !! f) ∧ ∀ v, (f, v) ∉ edges G.
Proof.
  unfold out_degree. destruct (nodes G !! f) as [a|] eqn:Hf.
  - split.
    + intros [= Hlen]. split; [by eexists|]. intros v Hv.
      apply length_zero_iff_nil in Hlen.
      eapply (filter_nil_not_elem_of _ _ (f, v)); [exact Hlen|done|].
      by apply elem_of_elements.
    + intros [_ Hno]. f_equal. apply length_zero_iff_nil.
      destruct (filter _ _) as [|[u v] l'] eqn:Hfl; [done|]. exfalso.
      assert ((u, v) ∈ filter (λ e, e.1 = f) (elements (edges G)))
        as [Hu Hin%elem_of_elements]%list_elem_of_filter by (rewrite Hfl; left).
      simpl in Hu. subst u. by eapply Hno.
  - split; [done|]. by intros [[? ?] _].
Qed.

Lemma out_degree_edges G G' f :
  edges G' = edges G →
  (is_Some (nodes G' !! f) ↔ is_Some (nodes G !! f)) →
  out_degree G' f = out_degree G f.
Proof.
  intros He Hn. unfold out_degree. rewrite He.
  destruct (nodes G !! f) as [a|] eqn:Hf, (nodes G' !! f) as [a'|] eqn:Hf';
    try done.
  - destruct Hn as [_ Hn]. destruct Hn as [? ?]; [by eexists | done].
  - destruct Hn as [Hn _]. destruct Hn as [? ?]; [by eexists | done].
Qed.

(** The loop of [mark_dead_code]: it never raises, and recolours the listed
    nodes without an outgoing edge. *)
Lemma mark_files_spec G l :
  ∃ G', foldl mark_file (Some G) l = Some G'
    ∧ edges G' = edges G
    ∧ ∀ k, nodes G' !! k =
           if decide (k ∈ l ∧ out_degree G k = Some 0)
           then mark <$> nodes G !! k else nodes G !! k.
Proof.
  induction l as [|f l IH] using rev_ind.
  - exists G. split_and!; [done..|]. intros k.
    rewrite decide_False; [done|]. by intros [?%elem_of_nil _].
  - destruct IH as (G1 & Hfold & He & Hn).
    rewrite foldl_app, Hfold. simpl.
    assert (out_degree G1 f = out_degree G f) as Hdeg.
    { apply out_degree_edges; [done|]. rewrite Hn.
      case_decide; [|done]. by rewrite fmap_is_Some. }
    rewrite Hdeg. case_bool_decide as Hzero.
    + pose proof Hzero as [[a Ha] _]%out_degree_zero.
      assert (∃ a1, nodes G1 !! f = Some a1 ∧ type a1 = type a) as (a1 & Ha1 & Ht).
      { rewrite Hn, Ha. case_decide; simpl; by eexists. }
      rewrite Ha1. simpl. eexists. split_and!; [done..|]. simpl.
      intros k. rewrite lookup_insert. case_decide as Hk.
      * subst k. rewrite decide_True, Ha; [|split; [apply elem_of_app; right; by left|done]].
        simpl. unfold mark. by rewrite Ht.
      * rewrite Hn. apply decide_ext. rewrite elem_of_app, list_elem_of_singleton.
        naive_solver.
    + exists G1. split_and!; [done..|]. intros k. rewrite Hn.
      apply decide_ext. rewrite elem_of_app, list_elem_of_singleton.
      split; [naive_solver|]. intros [[?| ->] Hk]; [done|]. congruence.
Qed.

End MarkDeadCode.

Section FileNodes.
Context {V : Type}.
Implicit Types (d : dict V) (k : string) (v : V).

Lemma keys_elem d k : k ∈ keys d ↔ ∃ v, (k, v) ∈ d.
Proof.
  unfold keys. rewrite list_elem_of_fmap. split.
  - intros ([k' v] & -> & ?). by exists v.
  - intros (v & ?). by exists (k, v).
Qed.

Lemma values_elem d v : v ∈ values d ↔ ∃ k, (k, v) ∈ d.
Proof.
  unfold values. rewrite list_elem_of_fmap. split.
  - intros ([k v'] & -> & ?). by exists k.
  - intros (k & ?). by exists (k, v).
Qed.

End FileNodes.

Lemma steps_file_nodes_elem (st : builder) (l : list op) (k v : string) :
  (k, v) ∈ file_nodes (steps st l) →
  (k, v) ∈ file_nodes st ∨ SetFileNode k v ∈ l.
Proof.
  induction l as [|o l IH] using rev_ind; [by left|].
  rewrite steps_snoc.
  assert ((k, v) ∈ file_nodes (steps st l) →
          (k, v) ∈ file_nodes st ∨ SetFileNode k v ∈ l ++ [o]) as IH'.
  { intros [?|?]%IH; [by left|]. right. apply elem_of_app. by left. }
  destruct o; simpl; try done.
  intros [[= -> ->]|?]%dict_set_elem; [|by apply IH'].
  right. apply elem_of_app. right. by left.
Qed.

(** [file_nodes] maps each path of the run to itself. *)
Lemma built_file_nodes (env : Env) (directory : string)
    (Gr : DiGraph) (fn : dict string) (codes : gmap string string) (f : string) :
  build_import_graph env directory = Ok (Gr, fn, codes) →
  f ∈ values fn ↔ f ∈ py_paths (os_walk env directory).
Proof.
  intros Hbuild.
  assert (∀ k v, (k, v) ∈ fn → k = v ∧ k ∈ py_paths (os_walk env directory))
    as Hdiag.
  { pose proof Hbuild as Hb.
    apply build_import_graph_Ok in Hb as (_ & _ & -> & _).
    intros k v [Hinit|Hin]%steps_file_nodes_elem;
      [by apply elem_of_nil in Hinit|].
    apply trace_emitted in Hin.
    inversion Hin as [p tree o' Hp Hparse Ho
                     |p tree name args body o' Hp Hparse Hsub Ho
                     |p tree name args body o' Hp Hparse Hsub Ho
                     |p tree C cbases cbody m margs mbody o' Hp Hparse Hsub Hm Ho
                     |p tree X o' Hp Hparse HX Ho]; subst o'; in_list Ho.
    done. }
  rewrite values_elem. split.
  - intros (k & [-> ?]%Hdiag). done.
  - intros Hf. eapply built_file_nodes_keys in Hf; [|done].
    apply keys_elem in Hf as (v & Hv). exists f.
    by destruct (Hdiag f v Hv) as [<- _].
Qed.

(** C5.  On the graph and the file-node dictionary a well-formed run
    returns, [mark_dead_code] succeeds, changes no edge and no node other
    than File nodes, and recolours a File node red exactly when it has no
    outgoing edge: a File node with an outgoing edge keeps its colour blue,
    a File node without one is red afterwards. *)
Theorem C5_mark_dead_code
    (env : Env) (directory : string)
    (Gr : DiGraph) (fn : dict string) (codes : gmap string string) :
  wf_run env directory = true →
  build_import_graph env directory = Ok (Gr, fn, codes) →
  ∃ Gr',
    mark_dead_code Gr fn = Some Gr'
    ∧ edges Gr' = edges Gr
    ∧ (∀ k, k ∉ values fn → nodes Gr' !! k = nodes Gr !! k)
    ∧ ∀ f, f ∈ values fn →
        nodes Gr !! f = Some file_attrs
        ∧ ((∀ v, (f, v) ∉ edges Gr) →
           nodes Gr' !! f = Some (Attrs (Some "red") (Some "file")))
        ∧ ((∃ v, (f, v) ∈ edges Gr) → nodes Gr' !! f = Some file_attrs)
        ∧ (color <$> nodes Gr' !! f = Some (Some "red") ↔
           ∀ v, (f, v) ∉ edges Gr).
Proof.
  intros Hwf Hbuild.
  assert (∀ f, f ∈ values fn → nodes Gr !! f = Some file_attrs) as Hfile.
  { intros f Hf%(built_file_nodes env directory Gr fn codes f Hbuild).
    by eapply (built_file_attrs _ _ _ _ _ Hwf Hbuild f). }
  destruct (mark_files_spec Gr (values fn)) as (Gr' & Hmark & He & Hn).
  exists Gr'. split_and!; [done..| |].
  - intros k Hk. rewrite Hn, decide_False; [done|]. by intros [? _].
  - intros f Hf. pose proof (Hfile f Hf) as Ha.
    assert ((∀ v, (f, v) ∉ edges Gr) →
            nodes Gr' !! f = Some (Attrs (Some "red") (Some "file"))) as Hred.
    { intros Hno. rewrite Hn, decide_True, Ha; [done|]. split; [done|].
      apply out_degree_zero. split; [by eexists | done]. }
    assert ((∃ v, (f, v) ∈ edges Gr) → nodes Gr' !! f = Some file_attrs) as Hblue.
    { intros [v Hv]. rewrite Hn, decide_False; [done|].
      intros [_ [_ Hno]%out_degree_zero]. by eapply Hno. }
    split_and!; [done..|]. split.
    + intros Hcol v Hv. rewrite Hblue in Hcol by by exists v. done.
    + intros Hno. by rewrite Hred.
Qed.

Lemma C5_witness :
  match build_import_graph Samples.shared "proj" with
  | Ok (Gr, fn, _) =>
      ∃ Gr',
        mark_dead_code Gr fn = Some Gr'
        ∧ edges Gr' = edges Gr
        ∧ nodes Gr' !! "proj/sub/empty.py" = Some (Attrs (Some "red") (Some "file"))
        ∧ nodes Gr' !! "proj/x.py" = Some file_attrs
  | Raise _ => False
  end.
Proof.
  destruct (build_import_graph Samples.shared "proj")
    as [[[Gr fn] codes]|e] eqn:Hbuild; [|by vm_compute in Hbuild].
  destruct (C5_mark_dead_code Samples.shared "proj" Gr fn codes)
    as (Gr' & Hmark & He & _ & Hfiles); [reflexivity | exact Hbuild |].
  exists Gr'. split_and!; [done..| |].
  - destruct (Hfiles "proj/sub/empty.py") as (_ & Hred & _).
    { vm_compute in Hbuild. injection Hbuild as _ <- _. do 2 right. by left. }
    apply Hred. intros v Hv.
    vm_compute in Hbuild. injection Hbuild as <- _ _.
    apply elem_of_elements in Hv. vm_compute in Hv.
    repeat (apply elem_of_cons in Hv as [[=]|Hv]). by apply elem_of_nil in Hv.
  - destruct (Hfiles "proj/x.py") as (_ & _ & Hblue & _).
    { vm_compute in Hbuild. injection Hbuild as _ <- _. by left. }
    apply Hblue. exists "os".
    vm_compute in Hbuild. injection Hbuild as <- _ _.
    apply elem_of_elements. vm_compute.
    repeat first [ by left | right ].
Defined.

(** ** C7: the order in which the walk lists the files *)

(** Writing block after block: the blocks may come in any order when two
    different blocks never disagree on a key. *)
Section Blocks.
Context {V : Type}.
Implicit Types (m : gmap string V) (ws : list (string * V)) (k : string).

Lemma write_all_app m ws1 ws2 :
  write_all m (ws1 ++ ws2) = write_all (write_all m ws1) ws2.
Proof. unfold write_all. by rewrite foldl_app. Qed.

Lemma write_all_union m ws : write_all m ws = write_all ∅ ws ∪ m.
Proof.
  induction ws as [|[k v] ws IH] using rev_ind.
  - simpl. by rewrite (left_id_L ∅ (∪)).
  - rewrite !write_all_snoc, IH. by rewrite insert_union_l.
Qed.

Context (blocks : string → list (string * V)).

Definition summary (p : string) : gmap string V := write_all ∅ (blocks p).

Lemma write_all_blocks_snoc (paths : list string) (p : string) :
  write_all ∅ ((paths ++ [p]) ≫= blocks)
  = summary p ∪ write_all ∅ (paths ≫= blocks).
Proof.
  rewrite bind_app, write_all_app. simpl. rewrite app_nil_r.
  apply write_all_union.
Qed.

Lemma write_all_blocks_lookup (paths : list string) k (a : V) :
  (∀ p q b c, p ∈ paths → q ∈ paths →
     summary p !! k = Some b → summary q !! k = Some c → b = c) →
  write_all ∅ (paths ≫= blocks) !! k = Some a ↔
  ∃ p, p ∈ paths ∧ summary p !! k = Some a.
Proof.
  induction paths as [|p paths IH] using rev_ind; intros Hagree.
  - simpl. rewrite lookup_empty. split; [done|]. by intros (? & ?%elem_of_nil & _).
  - rewrite write_all_blocks_snoc, lookup_union_Some_raw, IH.
    + split.
      * intros [Hp|(_ & q & Hq & Ha)].
        -- exists p. split; [|done]. apply elem_of_app. right. by left.
        -- exists q. split; [|done]. apply elem_of_app. by left.
      * intros (q & Hq & Ha).
        destruct (summary p !! k) as [b|] eqn:Hb.
        -- left. f_equal. eapply (Hagree p q); [|done..].
           apply elem_of_app. right. by left.
        -- right. split; [done|].
           apply elem_of_app in Hq as [Hq| ->%list_elem_of_singleton];
             [by exists q | congruence].
    + intros q1 q2 b c Hq1 Hq2. apply Hagree; apply elem_of_app; by left.
Qed.

Lemma write_all_blocks_perm (paths1 paths2 : list string) :
  paths1 ≡ₚ paths2 →
  (∀ k p q b c, p ∈ paths1 → q ∈ paths1 →
     summary p !! k = Some b → summary q !! k = Some c → b = c) →
  write_all ∅ (paths1 ≫= blocks) = write_all ∅ (paths2 ≫= blocks).
Proof.
  intros Hperm Hagree. apply map_eq. intros k. apply option_eq. intros a.
  rewrite !write_all_blocks_lookup.
  - by setoid_rewrite Hperm.
  - intros p q b c. rewrite <- !Hperm. apply Hagree.
  - apply Hagree.
Qed.

End Blocks.

Definition node_writes (l : list op) : list (string * node_attrs) :=
  omap (λ o, match o with
             | AddNode n c t => Some (n, Attrs (Some c) (Some t))
             | _ => None
             end) l.

(** The steps taken for the file at one path. *)
Definition block (env : Env) (p : string) : list op :=
  match parse_file env p with
  | Ok tree => file_ops env p tree
  | Raise _ => []
  end.

Lemma node_writes_elem (l : list op) (k : string) (a : node_attrs) :
  (k, a) ∈ node_writes l ↔
  ∃ c t, a = Attrs (Some c) (Some t) ∧ AddNode k c t ∈ l.
Proof.
  unfold node_writes. rewrite list_elem_of_omap. split.
  - intros (o & Ho & Heq). destruct o; simplify_eq. by eexists _, _.
  - intros (c & t & -> & Ho). by exists (AddNode k c t).
Qed.

Lemma omap_bind {A B C : Type} (f : B → option C) (g : A → list B) (l : list A) :
  omap f (l ≫= g) = l ≫= (λ x, omap f (g x)).
Proof.
  induction l as [|x l IH]; [done|].
  change ((x :: l) ≫= g) with (g x ++ (l ≫= g)).
  change ((x :: l) ≫= (λ x, omap f (g x)))
    with (omap f (g x) ++ (l ≫= (λ x, omap f (g x)))).
  by rewrite omap_app, IH.
Qed.

(** For an identity some [add_node] names, the attributes after a run are
    those of the last such call. *)
Lemma steps_nodes_writes (st : builder) (l : list op) (k : string) :
  (∃ c t, AddNode k c t ∈ l) →
  nodes (G (steps st l)) !! k = write_all (nodes (G st)) (node_writes l) !! k.
Proof.
  induction l as [|o l IH] using rev_ind; [by intros (? & ? & ?%elem_of_nil)|].
  intros (c & t & Hin). rewrite steps_snoc. unfold node_writes. rewrite omap_app.
  fold (node_writes l).
  assert (o ≠ AddNode k c t →
          nodes (G (steps st l)) !! k
          = write_all (nodes (G st)) (node_writes l) !! k
          ∧ is_Some (nodes (G (steps st l)) !! k)) as IH'.
  { intros Ho.
    assert (AddNode k c t ∈ l) as Hl.
    { apply elem_of_app in Hin as [?|?%list_elem_of_singleton]; done. }
    split; [apply IH; by eauto | by eapply steps_node_added]. }
  destruct o as [n c' t'|u v| | |]; simpl; rewrite ?app_nil_r;
    try (by apply IH').
  - rewrite write_all_snoc, !lookup_insert. case_decide as Hn; [done|].
    apply IH'. congruence.
  - destruct IH' as [<- [a Ha]]; [done|].
    rewrite Ha. by apply ensure_node_keeps, ensure_node_keeps.
Qed.

Lemma built_nodes_writes (env : Env) (paths : list string) :
  nodes (G (steps initial (trace env paths)))
  = write_all ∅ (node_writes (trace env paths)).
Proof.
  apply map_eq. intros k.
  destruct (write_all ∅ (node_writes (trace env paths)) !! k) as [a|] eqn:Hw.
  - apply write_all_inv in Hw as Hin.
    destruct Hin as [Hinit|(c & t & -> & Hin)%node_writes_elem];
      [by rewrite lookup_empty in Hinit|].
    rewrite steps_nodes_writes by by eauto. done.
  - destruct (nodes (G (steps initial (trace env paths))) !! k) as [a|] eqn:Hn;
      [exfalso|done].
    assert (∀ c t, AddNode k c t ∈ trace env paths → False) as Hno.
    { intros c t Hin.
      assert (is_Some (write_all ∅ (node_writes (trace env paths)) !! k))
        as [? ?]; [|congruence].
      apply write_all_is_Some. right. eexists. apply node_writes_elem.
      by eexists _, _. }
    apply steps_nodes_inv in Hn
      as [Hinit|[(c & t & _ & Hin)|(_ & (x & Hx) & _)]].
    + simpl in Hinit. by rewrite lookup_empty in Hinit.
    + by eapply Hno.
    + assert (∃ c t, emitted env paths (AddNode k c t)) as (c & t & Hin).
      { destruct Hx as [Hx|Hx]; apply trace_emitted, emitted_edge_endpoints in Hx;
          naive_solver. }
      apply trace_emitted in Hin. by eapply Hno.
Qed.

Lemma trace_block (env : Env) (paths : list string) :
  trace env paths = paths ≫= block env.
Proof. done. Qed.

Lemma block_emitted (env : Env) (p : string) (o : op) :
  o ∈ block env p ↔ emitted env [p] o.
Proof.
  rewrite <- trace_emitted, trace_block. simpl. by rewrite app_nil_r.
Qed.

Lemma emitted_mono (env : Env) (paths paths' : list string) (o : op) :
  (∀ p, p ∈ paths → p ∈ paths') → emitted env paths o → emitted env paths' o.
Proof.
  intros Hsub.
  intros [p tree o' Hp Hparse Ho
         |p tree name args body o' Hp Hparse Hsubn Ho
         |p tree name args body o' Hp Hparse Hsubn Ho
         |p tree C cbases cbody m margs mbody o' Hp Hparse Hsubn Hm Ho
         |p tree X o' Hp Hparse HX Ho]; apply Hsub in Hp.
  - by eapply emitted_file.
  - by eapply emitted_function.
  - by eapply emitted_class.
  - by eapply emitted_method.
  - by eapply emitted_module.
Qed.

(** ** Declarations of different files never share an identity *)

(** [owns p k]: [k] is [p::name] or [p::Class::name]. *)
Definition owns (p k : string) : Prop :=
  ∃ U n, k = U ∷ n ∧ identifier n = true
         ∧ (U = p ∨ ∃ C, identifier C = true ∧ U = p ∷ C).

Section CrossFile.
Context (env : Env) (directory : string).
Hypothesis Hwf : wf_run env directory = true.
Let paths := py_paths (os_walk env directory).
Implicit Types (k p q c t : string).

Lemma owns_decl_shape p k : owns p k → decl_shape k.
Proof. intros (U & n & -> & Hn & _). by apply decl_shape_intro. Qed.

Lemma owns_unique p q k : p ∈ paths → q ∈ paths → owns p k → owns q k → p = q.
Proof.
  intros Hp Hq (U & n & -> & Hn & HU) (U' & n' & Hk & Hn' & HU').
  apply wf_sep_inj in Hk as [-> _]; [|done..].
  destruct HU as [->|(C & HC & ->)], HU' as [HU'|(C' & HC' & HU')].
  - done.
  - exfalso. by eapply (wf_path_not_decl env directory Hwf p q C').
  - exfalso. by eapply (wf_path_not_decl env directory Hwf q p C).
  - by apply wf_sep_inj in HU' as [-> _].
Qed.

Lemma single_emitted p o : p ∈ paths → emitted env [p] o → emitted env paths o.
Proof.
  intros Hp. apply emitted_mono. by intros ? ->%list_elem_of_singleton.
Qed.

(** What one file can write under an identity. *)
Lemma single_file_node p k c t :
  p ∈ paths → emitted env [p] (AddNode k c t) →
  (k = p ∧ c = "blue" ∧ t = "file")
  ∨ (owns p k ∧ (c = "green" ∧ t = "function" ∨ c = "red" ∧ t = "class"))
  ∨ (module_shape k ∧ c = "yellow" ∧ t = "module").
Proof.
  intros Hp Hin.
  destruct (emitted_AddNode_inv _ _ _ _ _ Hin)
    as [(q & tq & ->%list_elem_of_singleton & Hpq & -> & -> & ->)
       |[(q & tq & n & a & b & ->%list_elem_of_singleton & Hpq & Hs & -> & -> & ->)
       |[(q & tq & n & a & b & ->%list_elem_of_singleton & Hpq & Hs & -> & -> & ->)
       |[(q & tq & C & cba & cb & m & ma & mb & ->%list_elem_of_singleton & Hpq & Hs & Hm & -> & -> & ->)
       |(q & tq & ->%list_elem_of_singleton & Hpq & HX & -> & ->)]]]].
  - by left.
  - right; left. split; [|by left]. exists p, n. split_and!; [done| |by left].
    by eapply (wf_function_name env directory Hwf).
  - right; left. split; [|by right]. exists p, n. split_and!; [done| |by left].
    by eapply (wf_class_name env directory Hwf).
  - right; left. split; [|by left]. exists (p ∷ C), m. split_and!; [done|..].
    + by eapply (wf_method_name env directory Hwf).
    + right. exists C. split; [|done]. by eapply (wf_class_name env directory Hwf).
  - right; right. split; [|done]. by eapply (wf_run_import env directory Hwf).
Qed.

Lemma cross_file_nodes p q k c t c' t' :
  p ∈ paths → q ∈ paths → p ≠ q →
  emitted env [p] (AddNode k c t) → emitted env [q] (AddNode k c' t') →
  c = c' ∧ t = t'.
Proof.
  intros Hp Hq Hne H1 H2.
  pose proof (wf_run_path env directory Hwf p Hp) as Hfp.
  pose proof (wf_run_path env directory Hwf q Hq) as Hfq.
  destruct (single_file_node p k c t Hp H1)
    as [(Hk & -> & ->)|[(Ho & _)|(Hm & -> & ->)]];
  destruct (single_file_node q k c' t' Hq H2)
    as [(Hk' & -> & ->)|[(Ho' & _)|(Hm' & -> & ->)]]; try done; exfalso;
    try (subst k);
    first [ congruence
          | by apply Hne, (owns_unique p q k)
          | by eapply (file_not_module p)
          | by eapply (file_not_module q)
          | by eapply (file_not_decl p); [|eapply owns_decl_shape]
          | by eapply (file_not_decl q); [|eapply owns_decl_shape]
          | eapply decl_not_module; [|done]; by eapply owns_decl_shape ].
Qed.

Lemma single_file_function_code p k code :
  p ∈ paths → emitted env [p] (SetFunctionCode k code) → owns p k.
Proof.
  intros Hp Hin.
  destruct (emitted_SetFunctionCode_inv _ _ _ _ Hin)
    as [(q & tq & n & a & b & ->%list_elem_of_singleton & Hpq & Hs & -> & ->)
       |(q & tq & C & cba & cb & m & ma & mb & ->%list_elem_of_singleton & Hpq & Hs & Hm & -> & ->)].
  - exists p, n. split_and!; [done| |by left].
    by eapply (wf_function_name env directory Hwf).
  - exists (p ∷ C), m. split_and!; [done|..].
    + by eapply (wf_method_name env directory Hwf).
    + right. exists C. split; [|done]. by eapply (wf_class_name env directory Hwf).
Qed.

Lemma single_file_class_code p k code :
  p ∈ paths → emitted env [p] (SetClassCode k code) → owns p k.
Proof.
  intros Hp Hin.
  destruct (emitted_SetClassCode_inv _ _ _ _ Hin)
    as (q & tq & n & a & b & ->%list_elem_of_singleton & Hpq & Hs & -> & ->).
  exists p, n. split_and!; [done| |by left].
  by eapply (wf_class_name env directory Hwf).
Qed.

End CrossFile.

(** ** The order in which the walk lists the files *)

Lemma visit_ext (env1 env2 : Env) (file_node : string) (n : node) :
  (∀ n, ast_unparse env1 n = ast_unparse env2 n) →
  visit env1 file_node n = visit env2 file_node n.
Proof.
  intros Hext. destruct n as [|name args body| |name bases body| | |]; simpl; try done.
  - unfold get_function_code. by rewrite Hext.
  - unfold get_class_code. rewrite Hext. do 3 f_equal.
    induction body as [|item body IH]; [done|].
    change ((item :: body) ≫= ?f) with (f item ++ (body ≫= f)).
    rewrite IH. f_equal. destruct item; simpl; try done.
    unfold get_function_code. by rewrite Hext.
Qed.

Lemma block_ext (env1 env2 : Env) (p : string) :
  (∀ p, parse_file env1 p = parse_file env2 p) →
  (∀ n, ast_unparse env1 n = ast_unparse env2 n) →
  block env1 p = block env2 p.
Proof.
  intros Hparse Hext. unfold block. rewrite Hparse.
  destruct (parse_file env2 p) as [tree|]; [|done].
  unfold file_ops. do 2 f_equal.
  induction (ast_walk tree) as [|n l IH]; [done|].
  change ((n :: l) ≫= ?f) with (f n ++ (l ≫= f)).
  by rewrite IH, (visit_ext env1 env2).
Qed.

Lemma trace_ext (env1 env2 : Env) (paths : list string) :
  (∀ p, parse_file env1 p = parse_file env2 p) →
  (∀ n, ast_unparse env1 n = ast_unparse env2 n) →
  trace env1 paths = trace env2 paths.
Proof.
  intros Hparse Hext. rewrite !trace_block.
  induction paths as [|p paths IH]; [done|].
  change ((p :: paths) ≫= ?f) with (f p ++ (paths ≫= f)).
  by rewrite IH, (block_ext env1 env2).
Qed.

Lemma steps_file_nodes_NoDup (st : builder) (l : list op) :
  NoDup (keys (file_nodes st)) → NoDup (keys (file_nodes (steps st l))).
Proof.
  intros Hst. induction l as [|o l IH] using rev_ind; [done|].
  rewrite steps_snoc. destruct o; simpl; try done. by apply NoDup_dict_set.
Qed.

(** The entries of the file-node dictionary a run returns. *)
Lemma built_file_nodes_elem (env : Env) (directory : string)
    (Gr : DiGraph) (fn : dict string) (codes : gmap string string)
    (k v : string) :
  build_import_graph env directory = Ok (Gr, fn, codes) →
  (k, v) ∈ fn ↔ v = k ∧ k ∈ py_paths (os_walk env directory).
Proof.
  intros Hbuild. split.
  - intros Hin. assert (v ∈ values fn) as Hv by (apply values_elem; by eauto).
    assert (k ∈ keys fn) as Hk by (apply keys_elem; by eauto).
    eapply built_file_nodes_keys in Hk; [|done]. split; [|done].
    pose proof Hbuild as Hb.
    apply build_import_graph_Ok in Hb as (_ & _ & -> & _).
    apply steps_file_nodes_elem in Hin as [Hinit|Hin];
      [by apply elem_of_nil in Hinit|].
    apply trace_emitted in Hin.
    inversion Hin as [p tree o' Hp Hparse Ho
                     |p tree name args body o' Hp Hparse Hsub Ho
                     |p tree name args body o' Hp Hparse Hsub Ho
                     |p tree C cbases cbody m margs mbody o' Hp Hparse Hsub Hm Ho
                     |p tree X o' Hp Hparse HX Ho]; subst o'; in_list Ho.
    done.
  - intros [-> Hk]. eapply built_file_nodes_keys in Hk; [|done].
    apply keys_elem in Hk as (v & Hv).
    assert (v ∈ values fn) as Hv' by (apply values_elem; by eauto).
    pose proof Hbuild as Hb.
    apply build_import_graph_Ok in Hb as (_ & _ & -> & _).
    pose proof Hv as Hin.
    apply steps_file_nodes_elem in Hin as [Hinit|Hin];
      [by apply elem_of_nil in Hinit|].
    apply trace_emitted in Hin.
    inversion Hin as [p tree o' Hp Hparse Ho
                     |p tree name args body o' Hp Hparse Hsub Ho
                     |p tree name args body o' Hp Hparse Hsub Ho
                     |p tree C cbases cbody m margs mbody o' Hp Hparse Hsub Hm Ho
                     |p tree X o' Hp Hparse HX Ho]; subst o'; in_list Ho.
    done.
Qed.

Lemma built_file_nodes_NoDup (env : Env) (directory : string)
    (Gr : DiGraph) (fn : dict string) (codes : gmap string string) :
  build_import_graph env directory = Ok (Gr, fn, codes) → NoDup fn.
Proof.
  intros (_ & _ & -> & _)%build_import_graph_Ok.
  eapply NoDup_fmap_1. apply steps_file_nodes_NoDup. constructor.
Qed.

Section Reordering.
Context (env : Env) (directory : string).
Hypothesis Hwf : wf_run env directory = true.
Let paths := py_paths (os_walk env directory).

Lemma summary_nodes_agree (k p q : string) (b c : node_attrs) :
  p ∈ paths → q ∈ paths →
  summary (λ p, node_writes (block env p)) p !! k = Some b →
  summary (λ p, node_writes (block env p)) q !! k = Some c → b = c.
Proof.
  intros Hp Hq Hb Hc. destruct (decide (p = q)) as [->|Hne]; [congruence|].
  apply write_all_inv in Hb as [Hb|Hb]; [by rewrite lookup_empty in Hb|].
  apply write_all_inv in Hc as [Hc|Hc]; [by rewrite lookup_empty in Hc|].
  apply node_writes_elem in Hb as (cb & tb & -> & Hb%block_emitted).
  apply node_writes_elem in Hc as (cc & tc & -> & Hc%block_emitted).
  destruct (cross_file_nodes env directory Hwf p q k cb tb cc tc) as [-> ->];
    done.
Qed.

Lemma summary_function_codes_agree (k p q b c : string) :
  p ∈ paths → q ∈ paths →
  summary (λ p, function_code_writes (block env p)) p !! k = Some b →
  summary (λ p, function_code_writes (block env p)) q !! k = Some c → b = c.
Proof.
  intros Hp Hq Hb Hc. destruct (decide (p = q)) as [->|Hne]; [congruence|].
  apply write_all_inv in Hb as [Hb|Hb]; [by rewrite lookup_empty in Hb|].
  apply write_all_inv in Hc as [Hc|Hc]; [by rewrite lookup_empty in Hc|].
  apply function_code_writes_elem, block_emitted in Hb, Hc.
  exfalso. apply Hne, (owns_unique env directory Hwf p q k); [done..| |].
  - by eapply single_file_function_code.
  - by eapply single_file_function_code.
Qed.

Lemma summary_class_codes_agree (k p q b c : string) :
  p ∈ paths → q ∈ paths →
  summary (λ p, class_code_writes (block env p)) p !! k = Some b →
  summary (λ p, class_code_writes (block env p)) q !! k = Some c → b = c.
Proof.
  intros Hp Hq Hb Hc. destruct (decide (p = q)) as [->|Hne]; [congruence|].
  apply write_all_inv in Hb as [Hb|Hb]; [by rewrite lookup_empty in Hb|].
  apply write_all_inv in Hc as [Hc|Hc]; [by rewrite lookup_empty in Hc|].
  apply class_code_writes_elem, block_emitted in Hb, Hc.
  exfalso. apply Hne, (owns_unique env directory Hwf p q k); [done..| |].
  - by eapply single_file_class_code.
  - by eapply single_file_class_code.
Qed.

(** Listing the same paths in another order gives the same graph and the
    same snippet dictionaries. *)
Lemma steps_trace_perm (paths' : list string) :
  paths ≡ₚ paths' →
  G (steps initial (trace env paths)) = G (steps initial (trace env paths'))
  ∧ function_codes (steps initial (trace env paths))
    = function_codes (steps initial (trace env paths'))
  ∧ class_codes (steps initial (trace env paths))
    = class_codes (steps initial (trace env paths')).
Proof.
  intros Hperm. split_and!.
  - assert (∀ (A B : DiGraph), nodes A = nodes B → edges A = edges B → A = B)
      as Heq by (intros [] []; simpl; congruence).
    apply Heq.
    + rewrite !built_nodes_writes, !trace_block. unfold node_writes.
      rewrite !omap_bind.
      apply (write_all_blocks_perm (λ p, node_writes (block env p)));
        [done|]. intros k p q b c. apply summary_nodes_agree.
    + apply leibniz_equiv. intros [u v]. rewrite !steps_edges, !trace_block.
      by rewrite Hperm.
  - rewrite !steps_function_codes, !trace_block. unfold function_code_writes.
    rewrite !omap_bind.
    apply (write_all_blocks_perm (λ p, function_code_writes (block env p)));
      [done|]. intros k p q b c. apply summary_function_codes_agree.
  - rewrite !steps_class_codes, !trace_block. unfold class_code_writes.
    rewrite !omap_bind.
    apply (write_all_blocks_perm (λ p, class_code_writes (block env p)));
      [done|]. intros k p q b c. apply summary_class_codes_agree.
Qed.

End Reordering.

(** C7.  [build_import_graph] is a function of the file system it reads,
    and its result depends neither on the order in which [os.walk] lists
    the files nor on the entries that are no [.py] file.  Two runs over
    well-formed input with the same file contents whose walks reach the same
    [.py] paths, in any order, both fail or both succeed, and then return
    the same graph (the same nodes with the same colour and type, the same
    edges), the same snippet dictionary, and file-node dictionaries with the
    same entries.  When both fail, the exception is that of the first file
    in the order of each walk that cannot be parsed. *)
Theorem C7_order_of_the_walk_is_immaterial
    (env1 env2 : Env) (directory1 directory2 : string) :
  (∀ p, parse_file env1 p = parse_file env2 p) →
  (∀ n, ast_unparse env1 n = ast_unparse env2 n) →
  py_paths (os_walk env1 directory1) ≡ₚ py_paths (os_walk env2 directory2) →
  wf_run env1 directory1 = true →
  match build_import_graph env1 directory1,
        build_import_graph env2 directory2 with
  | Ok (G1, fn1, codes1), Ok (G2, fn2, codes2) =>
      G1 = G2 ∧ codes1 = codes2 ∧ fn1 ≡ₚ fn2
  | Raise _, Raise _ => True
  | _, _ => False
  end.
Proof.
  intros Hparse Hext Hperm Hwf.
  destruct (build_import_graph env1 directory1) as [[[G1 fn1] c1]|e1] eqn:H1,
           (build_import_graph env2 directory2) as [[[G2 fn2] c2]|e2] eqn:H2;
    try done.
  - pose proof H1 as (_ & -> & _ & ->)%build_import_graph_Ok.
    pose proof H2 as (_ & -> & _ & ->)%build_import_graph_Ok.
    rewrite <- (trace_ext env1 env2 _ Hparse Hext).
    destruct (steps_trace_perm env1 directory1 Hwf _ Hperm) as (-> & -> & ->).
    split_and!; [done..|].
    apply NoDup_Permutation.
    + by eapply built_file_nodes_NoDup.
    + by eapply built_file_nodes_NoDup.
    + intros [k v].
      rewrite (built_file_nodes_elem _ _ _ _ _ k v H1),
              (built_file_nodes_elem _ _ _ _ _ k v H2).
      by rewrite Hperm.
  - apply build_import_graph_Ok in H1 as (Hall & _).
    apply build_import_graph_Raise in H2 as (p & Hp & He).
    rewrite <- Hperm in Hp. destruct (Hall p Hp) as [tree Htree].
    rewrite Hparse in Htree. congruence.
  - apply build_import_graph_Ok in H2 as (Hall & _).
    apply build_import_graph_Raise in H1 as (p & Hp & He).
    rewrite Hperm in Hp. destruct (Hall p Hp) as [tree Htree].
    rewrite <- Hparse in Htree. congruence.
Qed.

(** [Samples.shared_reordered] lists the files of [Samples.shared] in the
    opposite order. *)
Lemma C7_witness :
  match build_import_graph Samples.shared "proj",
        build_import_graph Samples.shared_reordered "proj" with
  | Ok (G1, fn1, codes1), Ok (G2, fn2, codes2) =>
      G1 = G2 ∧ codes1 = codes2 ∧ fn1 ≡ₚ fn2
      ∧ keys fn1 ≡ₚ [ "proj/x.py"; "proj/sub/y.py"; "proj/sub/empty.py" ]
  | _, _ => False
  end.
Proof.
  assert (py_paths (os_walk Samples.shared "proj")
          ≡ₚ py_paths (os_walk Samples.shared_reordered "proj")) as Hperm.
  { change (py_paths (os_walk Samples.shared_reordered "proj"))
      with (reverse (py_paths (os_walk Samples.shared "proj"))).
    by rewrite reverse_Permutation. }
  pose proof (C7_order_of_the_walk_is_immaterial
                Samples.shared Samples.shared_reordered "proj" "proj"
                (λ _, eq_refl) (λ _, eq_refl) Hperm eq_refl) as Hsame.
  destruct (build_import_graph Samples.shared "proj")
    as [[[G1 fn1] codes1]|e1] eqn:H1.
  - destruct (build_import_graph Samples.shared_reordered "proj")
      as [[[G2 fn2] codes2]|e2] eqn:H2; [|done].
    destruct Hsame as (HG & Hcodes & Hfn). split_and!; [done..|].
    apply NoDup_Permutation.
    + pose proof H1 as (_ & _ & -> & _)%build_import_graph_Ok.
      apply steps_file_nodes_NoDup. constructor.
    + apply (bool_decide_unpack _). by vm_compute.
    + intros k. by rewrite (built_file_nodes_keys _ _ _ _ _ H1 k).
  - apply build_import_graph_Raise in H1 as (p & Hp & He).
    vm_compute in Hp.
    repeat (apply elem_of_cons in Hp as [->|Hp]; [by vm_compute in He|]).
    by apply elem_of_nil in Hp.
Defined.

(** * Further properties of the graph and of the page *)

(** ** What [create_interactive_graph] reads from the graph *)

(** The colour that goes with a type in the [add_node] calls. *)
Definition color_of_type (t : string) : option string :=
  if bool_decide (t = "file") then Some "blue"
  else if bool_decide (t = "function") then Some "green"
  else if bool_decide (t = "class") then Some "red"
  else if bool_decide (t = "module") then Some "yellow"
  else None.

Lemma node_list_elem (G : DiGraph) (k : string) :
  k ∈ node_list G ↔ is_Some (nodes G !! k).
Proof.
  unfold node_list. rewrite list_elem_of_fmap. split.
  - intros ([k' a] & -> & Hin%elem_of_map_to_list). by eexists.
  - intros [a Ha]. exists (k, a). split; [done|]. by apply elem_of_map_to_list.
Qed.

(** X1.  Every node of a returned graph carries both attributes, and its
    colour is the one of its type: file/blue, function/green, class/red,
    module/yellow.  No node is left with the empty attribute dictionary
    [add_edge] gives a node it has to create. *)
Theorem built_nodes_have_color_and_type
    (env : Env) (directory : string)
    (Gr : DiGraph) (fn : dict string) (codes : gmap string string)
    (k : string) (a : node_attrs) :
  build_import_graph env directory = Ok (Gr, fn, codes) →
  nodes Gr !! k = Some a →
  ∃ c t, a = Attrs (Some c) (Some t) ∧ color_of_type t = Some c.
Proof.
  intros Hbuild Ha.
  destruct (built_node_inv _ _ _ _ _ Hbuild k a Ha) as (c & t & -> & Hin).
  exists c, t. split; [done|].
  by destruct (emitted_AddNode_type _ _ _ _ _ Hin)
    as [[-> ->]|[[-> ->]|[[-> ->]|[-> ->]]]].
Qed.

Lemma built_nodes_have_color_and_type_witness :
  match build_import_graph Samples.scenario "proj" with
  | Ok (Gr, _, _) =>
      ∃ a c t, nodes Gr !! "os" = Some a
               ∧ a = Attrs (Some c) (Some t) ∧ color_of_type t = Some c
  | Raise _ => False
  end.
Proof.
  sample_build Hbuild.
  destruct (built_import _ _ _ _ _ "proj/a.py" "os"
              (imports_of Samples.a_py) Hbuild) as (_ & _ & [a Ha] & _);
    [by left | done | by left |].
  destruct (built_nodes_have_color_and_type Samples.scenario "proj" Gr fn codes
              "os" a Hbuild Ha) as (c & t & ? & ?).
  by exists a, c, t.
Defined.

Lemma built_edges_ends (env : Env) (directory : string)
    (Gr : DiGraph) (fn : dict string) (codes : gmap string string)
    (u v : string) :
  build_import_graph env directory = Ok (Gr, fn, codes) →
  (u, v) ∈ edges Gr →
  is_Some (nodes Gr !! u) ∧ is_Some (nodes Gr !! v).
Proof.
  intros Hbuild He. eapply built_edge in He; [|done].
  destruct (emitted_edge_endpoints _ _ _ _ He) as [(c & t & Hu) (c' & t' & Hv)].
  split; by eapply built_node_present.
Qed.

(** X2.  No edge of a returned graph dangles, and only File nodes are
    without an incoming edge: both ends of every edge are nodes of the
    graph, and every node whose type is not file is the target of an
    edge. *)
Theorem built_edges_join_nodes
    (env : Env) (directory : string)
    (Gr : DiGraph) (fn : dict string) (codes : gmap string string) :
  build_import_graph env directory = Ok (Gr, fn, codes) →
  (∀ u v, (u, v) ∈ edges Gr →
          is_Some (nodes Gr !! u) ∧ is_Some (nodes Gr !! v))
  ∧ (∀ v a, nodes Gr !! v = Some a → type a ≠ Some "file" →
            ∃ u, (u, v) ∈ edges Gr).
Proof.
  intros Hbuild. split.
  - intros u v. by apply (built_edges_ends env directory Gr fn codes).
  - intros v a Ha Hfile.
    destruct (built_node_inv _ _ _ _ _ Hbuild v a Ha) as (c & t & -> & Hin).
    inversion Hin as [p tree o' Hp Hparse Ho
                     |p tree name args body o' Hp Hparse Hsub Ho
                     |p tree name args body o' Hp Hparse Hsub Ho
                     |p tree C cbases cbody m margs mbody o' Hp Hparse Hsub Hm Ho
                     |p tree X o' Hp Hparse HX Ho]; subst o'; in_list Ho.
    + exists p. eapply built_edge; [done|].
      eapply emitted_function; [done..|]. right; by left.
    + exists p. eapply built_edge; [done|].
      eapply emitted_class; [done..|]. right; by left.
    + eexists. eapply built_edge; [done|].
      eapply emitted_method; [done..|]. right; by left.
    + exists p. eapply built_edge; [done|].
      eapply emitted_module; [done..|]. right; by left.
Qed.

Lemma built_edges_join_nodes_witness :
  match build_import_graph Samples.scenario "proj" with
  | Ok (Gr, _, _) =>
      is_Some (nodes Gr !! "proj/b.py") ∧ is_Some (nodes Gr !! "a.foo")
      ∧ ∃ u, (u, "a.foo") ∈ edges Gr
  | Raise _ => False
  end.
Proof.
  sample_build Hbuild.
  destruct (built_edges_join_nodes Samples.scenario "proj" Gr fn codes Hbuild)
    as [Hends Hin].
  destruct (built_import _ _ _ _ _ "proj/b.py" "a.foo"
              (imports_of Samples.b_py) Hbuild) as (_ & _ & [a Ha] & _ & He);
    [right; by left | done | by left |].
  destruct (Hends _ _ He) as [Hu Hv]. split_and!; [done..|].
  apply (Hin "a.foo" a Ha).
  destruct (built_node_inv _ _ _ _ _ Hbuild _ _ Ha) as (c & t & -> & Hadd).
  destruct (emitted_AddNode_inv _ _ _ _ _ Hadd)
    as [(q & tq & Hq & Hpq & Hk & -> & ->)
       |[(q & tq & n' & a' & b' & Hq & Hpq & Hs & Hk & -> & ->)
       |[(q & tq & n' & a' & b' & Hq & Hpq & Hs & Hk & -> & ->)
       |[(q & tq & C & cba & cb & m & ma & mb & Hq & Hpq & Hs & Hm & Hk & -> & ->)
       |(q & tq & Hq & Hpq & HX & -> & ->)]]]]; try done.
  exfalso. vm_compute in Hq.
  repeat (apply elem_of_cons in Hq as [Hq|Hq]; [by subst q|]).
  by apply elem_of_nil in Hq.
Defined.

(** ** The shape of the graph of a well-formed run *)

(** The shape of a node's identity goes with its type. *)
Lemma built_node_shape (env : Env) (directory : string)
    (Gr : DiGraph) (fn : dict string) (codes : gmap string string)
    (k : string) (a : node_attrs) :
  wf_run env directory = true →
  build_import_graph env directory = Ok (Gr, fn, codes) →
  nodes Gr !! k = Some a →
  (a = file_attrs ∧ file_shape k)
  ∨ ((a = function_attrs ∨ a = class_attrs) ∧ decl_shape k)
  ∨ (a = module_attrs ∧ module_shape k).
Proof.
  intros Hwf Hbuild Ha.
  destruct (built_node_inv _ _ _ _ _ Hbuild k a Ha) as (c & t & -> & Hin).
  destruct (emitted_AddNode_shape env directory Hwf k c t Hin)
    as [(-> & -> & ?)|[([[-> ->]|[-> ->]] & ?)|(-> & -> & ?)]]; naive_solver.
Qed.




(** ** The snippet dictionary *)

Lemma emitted_code_node (env : Env) (paths : list string) (k : string) :
  (∃ code, emitted env paths (SetFunctionCode k code)
           ∨ emitted env paths (SetClassCode k code)) →
  ∃ c t, emitted env paths (AddNode k c t)
         ∧ (t = "function" ∨ t = "class").
Proof.
  intros (code & [Hin|Hin]).
  - destruct (emitted_SetFunctionCode_inv _ _ _ _ Hin)
      as [(p & tp & n & a & b & Hp & Hparse & Hs & -> & ->)
         |(p & tp & C & cba & cb & m & ma & mb & Hp & Hparse & Hs & Hm & -> & ->)].
    + exists "green", "function". split; [|by left].
      eapply emitted_function; [done..|]. by left.
    + exists "green", "function". split; [|by left].
      eapply emitted_method; [done..|]. by left.
  - destruct (emitted_SetClassCode_inv _ _ _ _ Hin)
      as (p & tp & n & a & b & Hp & Hparse & Hs & -> & ->).
    exists "red", "class". split; [|by right].
    eapply emitted_class; [done..|]. by left.
Qed.

(** X4.  The snippet dictionary of a well-formed run has an entry exactly
    for the Function and Class nodes of the graph: File and Module nodes
    have none, and no entry is left without its node. *)
Theorem built_snippets_cover_declarations
    (env : Env) (directory : string)
    (Gr : DiGraph) (fn : dict string) (codes : gmap string string)
    (k : string) :
  wf_run env directory = true →
  build_import_graph env directory = Ok (Gr, fn, codes) →
  is_Some (codes !! k) ↔
  nodes Gr !! k = Some function_attrs ∨ nodes Gr !! k = Some class_attrs.
Proof.
  intros Hwf Hbuild. split.
  - intros [code Hcode].
    destruct (emitted_code_node env (py_paths (os_walk env directory)) k)
      as (c & t & Hin & Ht).
    { exists code. by destruct (built_code_inv _ _ _ _ _ Hbuild k code Hcode); eauto. }
    destruct (built_node_present _ _ _ _ _ Hbuild k c t Hin) as [a Ha].
    destruct (emitted_AddNode_shape env directory Hwf k c t Hin)
      as [(_ & -> & _)|[(_ & Hd)|(_ & -> & _)]];
      [by destruct Ht | | by destruct Ht].
    destruct (built_node_shape _ _ _ _ _ k a Hwf Hbuild Ha)
      as [[_ Hf]|[[[-> | ->] _]|[_ Hm]]]; [exfalso| by left | by right |exfalso].
    + by eapply file_not_decl.
    + by eapply decl_not_module.
  - intros Hkind.
    assert (∃ c t, emitted env (py_paths (os_walk env directory)) (AddNode k c t)
                   ∧ (t = "function" ∨ t = "class")) as (c & t & Hin & Ht).
    { destruct Hkind as [Ha|Ha];
        destruct (built_node_inv _ _ _ _ _ Hbuild k _ Ha) as (c & t & [= <- <-] & Hin);
        eexists _, _; (split; [done|]); [by left | by right]. }
    eapply built_code_present; [done|].
    destruct (emitted_AddNode_type _ _ _ _ _ Hin)
      as [[-> ->]|[[-> ->]|[[-> ->]|[-> ->]]]]; try (by destruct Ht).
    + destruct (emitted_function_node_code _ _ _ Hin) as [code ?]. by eauto.
    + destruct (emitted_class_node_code _ _ _ Hin) as [code ?]. by eauto.
Qed.

Lemma built_snippets_cover_declarations_witness :
  match build_import_graph Samples.scenario "proj" with
  | Ok (Gr, _, codes) =>
      is_Some (codes !! "os") ↔
      nodes Gr !! "os" = Some function_attrs ∨ nodes Gr !! "os" = Some class_attrs
  | Raise _ => False
  end.
Proof.
  sample_build Hbuild.
  by apply (built_snippets_cover_declarations Samples.scenario "proj" Gr fn codes).
Defined.

(** ** More on [mark_dead_code] *)

(** X5.  [mark_dead_code] never raises and only recolours: whatever graph
    and dictionary it is given, it leaves a graph with the same edges and
    the same nodes with the same types; a node that is no value of
    [file_nodes] is left as it was, and so is a File node with an outgoing
    edge; a value of [file_nodes] that is no node of the graph is skipped
    and stays no node; a node that was changed is red; and running
    [mark_dead_code] again on the result changes nothing. *)
Theorem mark_dead_code_recolours_only
    (G : DiGraph) (file_nodes : dict string) :
  ∃ G',
    mark_dead_code G file_nodes = Some G'
    ∧ edges G' = edges G
    ∧ (∀ k, type <$> nodes G' !! k = type <$> nodes G !! k)
    ∧ (∀ k, k ∉ values file_nodes → nodes G' !! k = nodes G !! k)
    ∧ (∀ k v, (k, v) ∈ edges G → nodes G' !! k = nodes G !! k)
    ∧ (∀ k, nodes G !! k = None → nodes G' !! k = None)
    ∧ (∀ k, nodes G' !! k ≠ nodes G !! k →
            color <$> nodes G' !! k = Some (Some "red"))
    ∧ mark_dead_code G' file_nodes = Some G'.
Proof.
  destruct (mark_files_spec G (values file_nodes)) as (G' & Hfold & He & Hn).
  exists G'. split_and!; [done..| | | | | |].
  - intros k. rewrite Hn. case_decide; [|done]. by destruct (nodes G !! k).
  - intros k Hk. rewrite Hn, decide_False; [done|]. by intros [? _].
  - intros k v Hv. rewrite Hn, decide_False; [done|].
    intros [_ [_ Hno]%out_degree_zero]. by eapply Hno.
  - intros k Hk. rewrite Hn, Hk. by case_decide.
  - intros k. rewrite Hn. case_decide as Hk; [|done].
    destruct Hk as [_ [[a ->] _]%out_degree_zero]. done.
  - assert (∀ k, is_Some (nodes G' !! k) ↔ is_Some (nodes G !! k)) as Hdom.
    { intros k. rewrite Hn. case_decide; [|done]. by rewrite fmap_is_Some. }
    destruct (mark_files_spec G' (values file_nodes)) as (G2 & Hfold2 & He2 & Hn2).
    unfold mark_dead_code. rewrite Hfold2. f_equal.
    assert (∀ (A B : DiGraph), nodes A = nodes B → edges A = edges B → A = B)
      as Heq by (intros [] []; simpl; congruence).
    apply Heq; [|congruence]. apply map_eq. intros k. rewrite Hn2.
    case_decide as Hk; [|done]. destruct Hk as [Hk Hdeg].
    rewrite (out_degree_edges G G' k He (Hdom k)) in Hdeg.
    rewrite Hn, decide_True by done.
    destruct (nodes G !! k); done.
Qed.

(** ** The outgoing edges of a File node *)

(** X6.  In the graph of a well-formed run, the edges that leave the File
    node of a file [p] are exactly: one to [p::name] for every function or
    class definition the walk of [p] yields, and one to every flat
    identifier [p] imports.  So a File node has no outgoing edge, and is the
    kind of node [mark_dead_code] recolours, exactly when the file defines
    no function and no class anywhere and imports nothing. *)
Theorem built_file_out_edges
    (env : Env) (directory : string)
    (Gr : DiGraph) (fn : dict string) (codes : gmap string string)
    (p : string) (tree : node) :
  wf_run env directory = true →
  build_import_graph env directory = Ok (Gr, fn, codes) →
  p ∈ py_paths (os_walk env directory) → parse_file env p = Ok tree →
  (∀ v, (p, v) ∈ edges Gr ↔
        (∃ name args body, (subnode (FunctionDef name args body) tree
                            ∨ subnode (ClassDef name args body) tree)
                           ∧ v = p ∷ name)
        ∨ v ∈ keys (imports_of tree))
  ∧ ((∀ v, (p, v) ∉ edges Gr) ↔
     (∀ name args body, ¬ subnode (FunctionDef name args body) tree
                        ∧ ¬ subnode (ClassDef name args body) tree)
     ∧ imports_of tree = []).
Proof.
  intros Hwf Hbuild Hp Hparse.
  assert (∀ v, (p, v) ∈ edges Gr ↔
            (∃ name args body, (subnode (FunctionDef name args body) tree
                                ∨ subnode (ClassDef name args body) tree)
                               ∧ v = p ∷ name)
            ∨ v ∈ keys (imports_of tree)) as Hedges.
  { intros v. rewrite (built_edge _ _ _ _ _ Hbuild). split.
    - intros He. destruct (emitted_AddEdge_inv _ _ _ _ He)
        as [(q & tq & n & a & b & Hq & Hpq & Hs & <- & ->)
           |[(q & tq & C & cba & cb & m & ma & mb & Hq & Hpq & Hs & Hm & Hu & ->)
           |(q & tq & Hq & Hpq & HX & <-)]].
      + rewrite Hparse in Hpq. injection Hpq as <-. left. by exists n, a, b.
      + exfalso. eapply (wf_path_not_decl env directory Hwf p q C); [done| |done].
        by apply (wf_class_name env directory Hwf q tq C cba cb).
      + rewrite Hparse in Hpq. injection Hpq as <-. by right.
    - intros [(name & args & body & [Hs|Hs] & ->)|HX].
      + eapply emitted_function; [done..|]. right; by left.
      + eapply emitted_class; [done..|]. right; by left.
      + eapply emitted_module; [done..|]. right; by left. }
  split; [done|]. split.
  - intros Hno. split.
    + intros name args body.
      split; intros Hs; apply (Hno (p ∷ name)), Hedges; left;
        exists name, args, body; (split; [|done]); [by left | by right].
    + destruct (imports_of tree) as [|[X s] l] eqn:Himp; [done|]. exfalso.
      apply (Hno X), Hedges. right. by left.
  - intros [Hdecl Himp] v [(name & args & body & [Hs|Hs] & _)|HX]%Hedges.
    + by destruct (Hdecl name args body).
    + by destruct (Hdecl name args body).
    + rewrite Himp in HX. by apply elem_of_nil in HX.
Qed.

Lemma built_file_out_edges_witness :
  match build_import_graph Samples.shared "proj" with
  | Ok (Gr, _, _) =>
      (∀ v, ("proj/sub/empty.py", v) ∉ edges Gr)
      ∧ (∀ v, ("proj/x.py", v) ∈ edges Gr ↔ v = "os")
  | Raise _ => False
  end.
Proof.
  sample_build Hbuild. split.
  - destruct (built_file_out_edges Samples.shared "proj" Gr fn codes
                "proj/sub/empty.py" Samples.empty_py) as [_ [_ Hno]];
      [reflexivity | done | do 2 right; by left | done |].
    apply Hno. split; [|done]. intros name args body.
    split; intros Hs%ast_walk_elem; vm_compute in Hs; in_list Hs.
  - destruct (built_file_out_edges Samples.shared "proj" Gr fn codes
                "proj/x.py" Samples.x_py) as [Hedges _];
      [reflexivity | done | by left | done |].
    intros v. rewrite Hedges. split.
    + intros [(name & args & body & [Hs|Hs] & _)|HX].
      * apply ast_walk_elem in Hs. vm_compute in Hs. in_list Hs.
      * apply ast_walk_elem in Hs. vm_compute in Hs. in_list Hs.
      * vm_compute in HX. by apply list_elem_of_singleton in HX.
    + intros ->. right. vm_compute. by left.
Defined.

(** ** The file-node dictionary and the empty run *)

(** X7.  The dictionary [file_nodes] of a completed run lists every [.py]
    path the walk reaches exactly once, mapped to itself, and each of them
    is a node of the graph.  The graph is empty exactly when the walk
    reaches no [.py] file, and then the snippet dictionary is empty too. *)
Theorem built_file_nodes_list_the_paths
    (env : Env) (directory : string)
    (Gr : DiGraph) (fn : dict string) (codes : gmap string string) :
  build_import_graph env directory = Ok (Gr, fn, codes) →
  NoDup (keys fn)
  ∧ (∀ k v, (k, v) ∈ fn ↔ v = k ∧ k ∈ py_paths (os_walk env directory))
  ∧ (∀ k, k ∈ keys fn → is_Some (nodes Gr !! k))
  ∧ (nodes Gr = ∅ ↔ py_paths (os_walk env directory) = [])
  ∧ (py_paths (os_walk env directory) = [] →
     Gr = empty_graph ∧ fn = [] ∧ codes = ∅).
Proof.
  intros Hbuild. split_and!.
  - pose proof Hbuild as (_ & _ & -> & _)%build_import_graph_Ok.
    apply steps_file_nodes_NoDup. constructor.
  - intros k v. by apply (built_file_nodes_elem env directory Gr fn codes).
  - intros k Hk. eapply built_file_nodes_keys in Hk; [|done].
    destruct (built_parsed _ _ _ _ _ Hbuild k Hk) as [tree Hparse].
    eapply built_node_present; [done|]. eapply emitted_file; [done..|]. by left.
  - split.
    + intros Hempty.
      destruct (py_paths (os_walk env directory)) as [|p l] eqn:Hpaths; [done|].
      exfalso.
      assert (p ∈ py_paths (os_walk env directory)) as Hp by (rewrite Hpaths; left).
      destruct (built_parsed _ _ _ _ _ Hbuild p Hp) as [tree Hparse].
      assert (is_Some (nodes Gr !! p)) as [a Ha].
      { eapply built_node_present; [done|]. eapply emitted_file; [done..|]. by left. }
      rewrite Hempty, lookup_empty in Ha. done.
    + intros Hpaths.
      pose proof Hbuild as (_ & -> & _)%build_import_graph_Ok.
      by rewrite Hpaths.
  - intros Hpaths.
    pose proof Hbuild as (_ & -> & -> & ->)%build_import_graph_Ok.
    rewrite Hpaths. simpl. split_and!; [done..|]. by rewrite (left_id_L ∅ (∪)).
Qed.

Lemma built_file_nodes_list_the_paths_witness :
  match build_import_graph Samples.scenario "nowhere" with
  | Ok (Gr, fn, codes) => Gr = empty_graph ∧ fn = [] ∧ codes = ∅
  | Raise _ => False
  end.
Proof.
  sample_build Hbuild.
  by apply (built_file_nodes_list_the_paths Samples.scenario "nowhere" Gr fn codes).
Defined.

(** ** The hover text and the click handler

    Line 124 builds the hover text of a node as [f"{node}<br>Type: {type}"];
    lines 180-183 of the embedded script read the node's name and type back
    from it with [split]: [js_split] on a text that holds its separator
    once, twice or not at all. *)


Section Split.
Local Arguments String.append !_ _ / : simpl nomatch.
Implicit Types (sep piece a rest s : string) (c : ascii).









End Split.


(** ** The loops of [create_interactive_graph] *)

Section Loops.
Context {R : Type} (pos : gmap string (R * R)) (Gr : DiGraph).

Lemma edge_loop_Ok (l : list (string * string)) :
  (∀ u v, (u, v) ∈ l → is_Some (pos !! u) ∧ is_Some (pos !! v)) →
  ∃ xs ys, foldl (edge_step pos) (Ok ([], [])) l = Ok (xs, ys)
           ∧ length xs = 3 * length l ∧ length ys = 3 * length l.
Proof.
  induction l as [|[u v] l IH] using rev_ind; intros Hpos.
  - by exists [], [].
  - destruct IH as (xs & ys & Hfold & Hx & Hy).
    { intros u' v' ?. apply Hpos, elem_of_app. by left. }
    destruct (Hpos u v) as [[[x0 y0] Hu] [[x1 y1] Hv]];
      [apply elem_of_app; right; by left|].
    rewrite foldl_app, Hfold. simpl. rewrite Hu, Hv. simpl.
    eexists _, _. split; [done|]. rewrite !length_app. simpl. lia.
Qed.

Lemma node_loop_Ok (l : list string) :
  (∀ k, k ∈ l → is_Some (pos !! k)
                ∧ ∃ c t, nodes Gr !! k = Some (Attrs (Some c) (Some t))) →
  ∃ xs ys colors text,
    foldl (node_step pos Gr) (Ok ([], [], [], [])) l = Ok (xs, ys, colors, text)
    ∧ length xs = length l ∧ length ys = length l
    ∧ length colors = length l ∧ length text = length l
    ∧ ∀ i k, l !! i = Some k →
        ∃ x y c t, pos !! k = Some (x, y)
          ∧ nodes Gr !! k = Some (Attrs (Some c) (Some t))
          ∧ xs !! i = Some x ∧ ys !! i = Some y
          ∧ colors !! i = Some c ∧ text !! i = Some (hover_text k t).
Proof.
  induction l as [|k l IH] using rev_ind; intros Hl.
  - exists [], [], [], []. split_and!; [done..|]. by intros i k ?.
  - destruct IH as (xs & ys & colors & text & Hfold & Hx & Hy & Hc & Ht & Hall).
    { intros k' ?. apply Hl, elem_of_app. by left. }
    destruct (Hl k) as [[[x y] Hpos] (c & t & Ha)];
      [apply elem_of_app; right; by left|].
    rewrite foldl_app, Hfold. simpl. rewrite Hpos, Ha. simpl.
    eexists _, _, _, _. split; [done|]. rewrite !length_app. simpl.
    split_and!; [lia..|].
    intros i k' Hi. apply lookup_app_Some in Hi as [Hi|[Hlen Hi]].
    + destruct (Hall i k' Hi) as (x' & y' & c' & t' & ? & ? & ? & ? & ? & ?).
      exists x', y', c', t'.
      split_and!; [done | done | by apply lookup_app_l_Some..].
    + apply list_lookup_singleton_Some in Hi as [Hi <-].
      assert (i = length l) as -> by lia.
      exists x, y, c, t. split_and!; [done | done |..].
      * rewrite lookup_app_r by lia. by rewrite Hx, Nat.sub_diag.
      * rewrite lookup_app_r by lia. by rewrite Hy, Nat.sub_diag.
      * rewrite lookup_app_r by lia. by rewrite Hc, Nat.sub_diag.
      * rewrite lookup_app_r by lia. by rewrite Ht, Nat.sub_diag.
Qed.

Lemma node_loop_inv (l : list string) xs ys colors text :
  foldl (node_step pos Gr) (Ok ([], [], [], [])) l = Ok (xs, ys, colors, text) →
  length colors = length l
  ∧ ∀ i k, l !! i = Some k →
      ∃ a c t, nodes Gr !! k = Some a ∧ color a = Some c ∧ type a = Some t
        ∧ colors !! i = Some c ∧ text !! i = Some (hover_text k t).
Proof.
  revert xs ys colors text.
  induction l as [|k l IH] using rev_ind; intros xs ys colors text Hfold.
  - simpl in Hfold. injection Hfold as <- <- <- <-. split; [done|]. by intros i k ?.
  - rewrite foldl_app in Hfold. simpl in Hfold.
    destruct (foldl (node_step pos Gr) (Ok ([], [], [], [])) l)
      as [[[[xs' ys'] colors'] text']|e] eqn:Hl; simpl in Hfold; [|done].
    destruct (pos !! k) as [[x y]|]; simpl in Hfold; [|done].
    destruct (nodes Gr !! k) as [a|] eqn:Ha; simpl in Hfold; [|done].
    destruct (color a) as [c|] eqn:Hc; simpl in Hfold; [|done].
    destruct (type a) as [t|] eqn:Ht; simpl in Hfold; [|done].
    injection Hfold as <- <- <- <-.
    destruct (IH _ _ _ _ eq_refl) as [Hlen Hall].
    rewrite !length_app. simpl. split; [lia|].
    intros i k' Hi. apply lookup_app_Some in Hi as [Hi|[Hge Hi]].
    + destruct (Hall i k' Hi) as (a' & c' & t' & ? & ? & ? & ? & ?).
      exists a', c', t'.
      split_and!; [done | done | done | by apply lookup_app_l_Some..].
    + apply list_lookup_singleton_Some in Hi as [Hi <-].
      assert (i = length l) as -> by lia.
      exists a, c, t. split_and!; [done | done | done |..].
      * rewrite lookup_app_r by lia. by rewrite Hlen, Nat.sub_diag.
      * assert (length text' = length l) as Htext.
        { clear -Hl. revert xs' ys' colors' text' Hl.
          induction l as [|k l IH] using rev_ind; intros xs ys colors text Hl.
          - simpl in Hl. by injection Hl as <- <- <- <-.
          - rewrite foldl_app in Hl. simpl in Hl.
            destruct (foldl (node_step pos Gr) (Ok ([], [], [], [])) l)
              as [[[[xs' ys'] colors'] text']|e] eqn:Hl'; simpl in Hl; [|done].
            destruct (pos !! k) as [[x y]|]; simpl in Hl; [|done].
            destruct (nodes Gr !! k) as [a|]; simpl in Hl; [|done].
            destruct (color a); simpl in Hl; [|done].
            destruct (type a); simpl in Hl; [|done].
            injection Hl as <- <- <- <-. rewrite !length_app. simpl.
            by rewrite (IH _ _ _ _ eq_refl). }
        rewrite lookup_app_r by lia. by rewrite Htext, Nat.sub_diag.
Qed.

End Loops.

(** What a page that was written tells about the run of
    [create_interactive_graph]. *)
Lemma create_interactive_graph_Ok {R : Type} (libs : Libs R) (Gr : DiGraph)
    (codes : gmap string string) (output_file : string) (html : page R) :
  create_interactive_graph libs Gr codes output_file = Ok html →
  functionCodes html = codes
  ∧ ∃ pos,
      spring_layout libs Gr = Ok pos
      ∧ foldl (edge_step pos) (Ok ([], [])) (edge_list Gr)
        = Ok (edge_x (fig html), edge_y (fig html))
      ∧ foldl (node_step pos Gr) (Ok ([], [], [], [])) (node_list Gr)
        = Ok (node_x (fig html), node_y (fig html),
              node_colors (fig html), node_text (fig html))
      ∧ go_Scatter libs = None ∧ go_Figure libs (fig html) = None
      ∧ open_w libs output_file = None
      ∧ to_json libs (fig html) = Ok (graphData html)
      ∧ f_write libs output_file html = None.
Proof.
  unfold create_interactive_graph.
  destruct (spring_layout libs Gr) as [pos|] eqn:Hpos; simpl; [|done].
  destruct (go_Scatter libs) eqn:Hscatter; simpl; [done|].
  destruct (foldl (edge_step pos) _ _) as [[ex ey]|] eqn:Hedges; simpl; [|done].
  destruct (foldl (node_step pos Gr) _ _) as [[[[nx ny] colors] text]|]
    eqn:Hnodes; simpl; [|done].
  destruct (go_Figure libs _) eqn:Hfigure; simpl; [done|].
  destruct (open_w libs output_file) eqn:Hopen; simpl; [done|].
  destruct (to_json libs _) as [js|] eqn:Hjson; simpl; [|done].
  destruct (f_write libs output_file _) eqn:Hwrite; simpl; [done|].
  intros [= <-]. simpl. split; [done|]. by exists pos.
Qed.

(** On a graph that [build_import_graph] returned, with every node placed,
    both loops run to their end. *)
Lemma built_loops_Ok {R : Type} (pos : gmap string (R * R))
    (env : Env) (directory : string)
    (Gr : DiGraph) (fn : dict string) (codes : gmap string string) :
  build_import_graph env directory = Ok (Gr, fn, codes) →
  (∀ k, is_Some (nodes Gr !! k) → is_Some (pos !! k)) →
  ∃ ex ey nx ny colors text,
    foldl (edge_step pos) (Ok ([], [])) (edge_list Gr) = Ok (ex, ey)
    ∧ foldl (node_step pos Gr) (Ok ([], [], [], [])) (node_list Gr)
      = Ok (nx, ny, colors, text)
    ∧ length ex = 3 * size (edges Gr) ∧ length ey = 3 * size (edges Gr)
    ∧ length nx = size (nodes Gr) ∧ length ny = size (nodes Gr)
    ∧ length colors = size (nodes Gr) ∧ length text = size (nodes Gr)
    ∧ ∀ i k, node_list Gr !! i = Some k →
        ∃ c t, nodes Gr !! k = Some (Attrs (Some c) (Some t))
          ∧ colors !! i = Some c ∧ text !! i = Some (hover_text k t).
Proof.
  intros Hbuild Hplaced.
  destruct (edge_loop_Ok pos (edge_list Gr)) as (ex & ey & Hedges & Hex & Hey).
  { intros u v He. unfold edge_list in He. apply elem_of_elements in He.
    destruct (built_edges_ends _ _ _ _ _ u v Hbuild He). split; by apply Hplaced. }
  destruct (node_loop_Ok pos Gr (node_list Gr))
    as (nx & ny & colors & text & Hnodes & Hnx & Hny & Hc & Ht & Hall).
  { intros k [a Ha]%node_list_elem. split; [by apply Hplaced|].
    destruct (built_node_inv _ _ _ _ _ Hbuild k a Ha) as (c & t & -> & _).
    by exists c, t. }
  assert (length (node_list Gr) = size (nodes Gr)) as Hsize.
  { unfold node_list. by rewrite length_fmap, length_map_to_list. }
  assert (length (edge_list Gr) = size (edges Gr)) as Hsize' by done.
  exists ex, ey, nx, ny, colors, text. split_and!; [done | done | lia..|].
  intros i k Hi.
  destruct (Hall i k Hi) as (x & y & c & t & _ & Ha & _ & _ & Hci & Hti).
  by exists c, t.
Qed.

(** X8.  Drawing a graph that [build_import_graph] returned raises no
    [KeyError]: when the layout places every node, the loops over the edges
    and the nodes run to their end, and [create_interactive_graph] fails
    only if plotly or the output file does.  The edge trace holds three
    coordinates for every edge, the node trace one point, one colour and
    one hover text for every node; the colour is the one of the node's type
    and the hover text is made of its identity and its type. *)
Theorem drawing_a_built_graph {R : Type} (libs : Libs R)
    (env : Env) (directory : string)
    (Gr : DiGraph) (fn : dict string) (codes : gmap string string)
    (output_file : string) (pos : gmap string (R * R)) :
  build_import_graph env directory = Ok (Gr, fn, codes) →
  spring_layout libs Gr = Ok pos →
  (∀ k, is_Some (nodes Gr !! k) → is_Some (pos !! k)) →
  ∃ figure,
    create_interactive_graph libs Gr codes output_file
    = bind (call (go_Scatter libs)) (λ _,
        bind (call (go_Figure libs figure)) (λ _,
          bind (call (open_w libs output_file)) (λ _,
            bind (to_json libs figure) (λ graphData,
              bind (call (f_write libs output_file
                            (Page figure graphData codes))) (λ _,
                Ok (Page figure graphData codes))))))
    ∧ length (edge_x figure) = 3 * size (edges Gr)
    ∧ length (edge_y figure) = 3 * size (edges Gr)
    ∧ length (node_x figure) = size (nodes Gr)
    ∧ length (node_y figure) = size (nodes Gr)
    ∧ length (node_colors figure) = size (nodes Gr)
    ∧ length (node_text figure) = size (nodes Gr)
    ∧ ∀ i k, node_list Gr !! i = Some k →
        ∃ c t, nodes Gr !! k = Some (Attrs (Some c) (Some t))
          ∧ color_of_type t = Some c
          ∧ node_colors figure !! i = Some c
          ∧ node_text figure !! i = Some (hover_text k t).
Proof.
  intros Hbuild Hpos Hplaced.
  destruct (built_loops_Ok pos env directory Gr fn codes Hbuild Hplaced)
    as (ex & ey & nx & ny & colors & text & Hedges & Hnodes
        & Hex & Hey & Hnx & Hny & Hc & Ht & Hall).
  exists (Figure ex ey nx ny colors text). split_and!; [|done..|].
  - unfold create_interactive_graph. rewrite Hpos. simpl.
    destruct (go_Scatter libs); simpl; [done|]. by rewrite Hedges, Hnodes.
  - intros i k Hi. simpl.
    destruct (Hall i k Hi) as (c & t & Ha & Hci & Hti).
    exists c, t. split_and!; [done| |done..].
    destruct (built_node_inv _ _ _ _ _ Hbuild k _ Ha) as (c' & t' & [= <- <-] & Hin).
    by destruct (emitted_AddNode_type _ _ _ _ _ Hin)
      as [[-> ->]|[[-> ->]|[[-> ->]|[-> ->]]]].
Qed.

Lemma drawing_a_built_graph_witness :
  match build_import_graph Samples.scenario "proj" with
  | Ok (Gr, _, codes) =>
      ∃ html,
        create_interactive_graph Samples.libs Gr codes "out.html" = Ok html
        ∧ length (edge_x (fig html)) = 3 * size (edges Gr)
        ∧ length (node_text (fig html)) = size (nodes Gr)
  | Raise _ => False
  end.
Proof.
  sample_build Hbuild.
  destruct (drawing_a_built_graph Samples.libs Samples.scenario "proj" Gr fn codes
              "out.html" ((λ _, (0%Z, 0%Z)) <$> nodes Gr) Hbuild eq_refl)
    as (figure & Hdraw & Hex & _ & _ & _ & _ & Htext & _).
  { intros k [a Ha]. rewrite lookup_fmap, Ha. by eexists. }
  exists (Page figure "{}" codes). by rewrite Hdraw.
Defined.

(** ** Clicking a node *)





(** ** [main] *)

(** X11.  [main] never calls [mark_dead_code]: when it returns, the page it
    wrote shows the graph as [build_import_graph] returned it, with the
    snippet dictionary of the build, and it printed its closing line and
    nothing else.  In the page of a well-formed run every File node is
    blue, also the ones without any outgoing edge. *)
Theorem main_draws_the_unmarked_graph {R : Type} (libs : Libs R)
    (env : Env) (directory output_file : string) (out : outcome R) :
  main env libs directory output_file = Ok out →
  ∃ Gr fn,
    build_import_graph env directory
      = Ok (Gr, fn, functionCodes (html out))
    ∧ create_interactive_graph libs Gr (functionCodes (html out)) output_file
      = Ok (html out)
    ∧ written_to out = output_file
    ∧ stdout out = [ "Interactive import graph saved to " +:+ output_file ]
    ∧ length (node_colors (fig (html out))) = size (nodes Gr)
    ∧ (wf_run env directory = true →
       ∀ i p, node_list Gr !! i = Some p →
              p ∈ py_paths (os_walk env directory) →
              node_colors (fig (html out)) !! i = Some "blue").
Proof.
  unfold main.
  destruct (build_import_graph env directory) as [[[Gr fn] codes]|e] eqn:Hbuild;
    simpl; [|done].
  destruct (create_interactive_graph libs Gr codes output_file) as [html|e]
    eqn:Hdraw; simpl; [|done].
  intros [= <-]. simpl.
  destruct (create_interactive_graph_Ok libs Gr codes output_file html Hdraw)
    as (Hcodes & pos & _ & _ & Hnodes & _).
  destruct (node_loop_inv pos Gr _ _ _ _ _ Hnodes) as [Hlen Hall].
  exists Gr, fn. rewrite Hcodes. split_and!; [done..| |].
  - rewrite Hlen. unfold node_list. by rewrite length_fmap, length_map_to_list.
  - intros Hwf i p Hi Hp.
    destruct (Hall i p Hi) as (a & c & t & Ha & Hc & _ & Hci & _).
    rewrite (built_file_attrs env directory Gr fn codes Hwf Hbuild p Hp) in Ha.
    injection Ha as <-. simpl in Hc. by injection Hc as <-.
Qed.

Lemma main_draws_the_unmarked_graph_witness :
  match main Samples.shared Samples.libs "proj" "out.html" with
  | Ok out =>
      stdout out = [ "Interactive import graph saved to out.html" ]
      ∧ ∃ Gr fn, build_import_graph Samples.shared "proj"
                   = Ok (Gr, fn, functionCodes (html out))
          ∧ ∀ i, node_list Gr !! i = Some "proj/sub/empty.py" →
                 node_colors (fig (html out)) !! i = Some "blue"
  | Raise _ => False
  end.
Proof.
  destruct (main Samples.shared Samples.libs "proj" "out.html") as [out|e]
    eqn:Hmain.
  - destruct (main_draws_the_unmarked_graph Samples.libs Samples.shared
                "proj" "out.html" out Hmain)
      as (Gr & fn & Hbuild & _ & _ & Hout & _ & Hblue).
    split; [done|]. exists Gr, fn. split; [done|].
    intros i Hi. apply (Hblue eq_refl i _ Hi). do 2 right. by left.
  - exfalso. unfold main in Hmain.
    destruct (build_import_graph Samples.shared "proj")
      as [[[Gr fn] codes]|e'] eqn:Hbuild.
    + simpl in Hmain.
      destruct (built_loops_Ok ((λ _, (0%Z, 0%Z)) <$> nodes Gr)
                  Samples.shared "proj" Gr fn codes Hbuild)
        as (ex & ey & nx & ny & colors & text & Hedges & Hnodes & _).
      { intros k [a Ha]. rewrite lookup_fmap, Ha. by eexists. }
      unfold create_interactive_graph in Hmain. simpl in Hmain.
      by rewrite Hedges, Hnodes in Hmain.
    + apply build_import_graph_Raise in Hbuild as (p & Hp & He).
      vm_compute in Hp.
      repeat (apply elem_of_cons in Hp as [->|Hp]; [by vm_compute in He|]).
      by apply elem_of_nil in Hp.
Defined.
